(** * Chunked CSV cleaner: removal of the "100000" sentinel rows

    A shallow embedding of
    [madhan-notebooks/Python_scripts/CLEANING_100000/Cleaning_dataset_to_remove_100000.py]
    and the properties of its column detector, row partition, per-file
    processing and run orchestration.

    Modelling conventions.
    - Header names and cell values are [string]s over 8-bit characters
      (the UTF-8 bytes of the text); [Str.lower] folds the letters A-Z, which
      is what [str.lower] does on ASCII text, and the facts about lowercased
      header names are proved for every case folding.
    - A data frame is its column list plus its rows; a row is the list of
      its cells in column order; a cell is [Some s] for a text value and
      [None] for a missing one (pandas' NaN under [dtype=str]).
    - A Python [dict] is an insertion-ordered association list.
    - A text file is the list of lines written to it, each line being kept
      as the fields it renders (the quoting done by the CSV writer is not
      modelled).
    - The file system is a record: the input tree, the directories and files
      of the cleaned tree, the audit log, and the console transcript. *)

From Stdlib Require Import Ascii String.
From stdpp Require Import base option list strings gmap.

Open Scope string_scope.
Open Scope list_scope.
Open Scope nat_scope.

(** ** Strings: [str.lower] and the [in] operator *)

Module Str.

Definition lower_ascii (a : ascii) : ascii :=
  let n := nat_of_ascii a in
  if (65 <=? n)%nat && (n <=? 90)%nat then ascii_of_nat (n + 32) else a.

Fixpoint lower (s : string) : string :=
  match s with
  | EmptyString => EmptyString
  | String a s' => String (lower_ascii a) (lower s')
  end.

(** [contains sub s] is Python's [sub in s] on strings. *)
Fixpoint contains (sub s : string) : bool :=
  if String.prefix sub s then true
  else match s with
       | EmptyString => false
       | String _ s' => contains sub s'
       end.

(** Truth value of a [str]: only the empty string is falsy. *)
Definition truthy (s : string) : bool :=
  match s with EmptyString => false | String _ _ => true end.

End Str.

(** ** Insertion-ordered dictionaries *)

Module PyDict.
Section dict.
Context {K V : Type} `{EqDecision K}.

Definition t := list (K * V).

(** [d[k] = v]: an existing key keeps its position and gets the new value,
    a new key goes to the end. *)
Fixpoint set (k : K) (v : V) (d : t) : t :=
  match d with
  | [] => [(k, v)]
  | (k', v') :: d' =>
      if decide (k = k') then (k', v) :: d' else (k', v') :: set k v d'
  end.

Fixpoint get (k : K) (d : t) : option V :=
  match d with
  | [] => None
  | (k', v') :: d' => if decide (k = k') then Some v' else get k d'
  end.

(** Iterating a dictionary yields its keys in insertion order. *)
Definition keys (d : t) : list K := d.*1.

(** [{key c: c for c in l}] *)
Definition comprehension (key : V → K) (l : list V) : t :=
  foldl (λ d c, set (key c) c d) [] l.
End dict.
End PyDict.

(** ** The column role detector *)

(** [next((d[c] for c in d if sub in c), None)] *)
Definition next_match (sub : string) (d : list (string * string)) : option string :=
  match List.find (Str.contains sub) (PyDict.keys d) with
  | Some c => PyDict.get c d
  | None => None
  end.

Definition lower_cols (columns : list string) : list (string * string) :=
  PyDict.comprehension Str.lower columns.

Definition _state_district_columns (columns : list string)
  : option string * option string :=
  let d := lower_cols columns in
  let state_col := next_match "state" d in
  let district_col := next_match "district" d in
  (state_col, district_col).

(** The same function over any case folding [lower] of the header names.
    [Str.lower] is [str.lower] on ASCII names; Python folds every cased
    letter, so that two headers that differ in the case of a non-ASCII letter
    share a key. What the detector does with lowercased forms is therefore
    stated for every [lower], [str.lower] being one. *)
Definition lower_cols_with (lower : string → string) (columns : list string)
  : list (string * string) :=
  PyDict.comprehension lower columns.

Definition state_district_columns_with (lower : string → string) (columns : list string)
  : option string * option string :=
  let d := lower_cols_with lower columns in
  let state_col := next_match "state" d in
  let district_col := next_match "district" d in
  (state_col, district_col).

(** ** Data frames *)

Definition cell := option string.
Definition row := list cell.

Record frame := Frame { columns : list string; rows : list row }.

Module Pd.

(** Position of a column name in the header. The CSV parser makes the names
    of a frame pairwise distinct, so a name designates one column. *)
Definition col_index (col : string) (cols : list string) : option nat :=
  fst <$> list_find (λ c, c = col) cols.

(** The value of row [r] in column [col]; a row shorter than the header is
    padded with missing values, as the parser does. Looking up a name that
    is not in the header raises KeyError in pandas; the script only looks up
    names the detector returned, which are names of the header. *)
Definition cell_at (cols : list string) (col : string) (r : row) : cell :=
  i ← col_index col cols; mjoin (r !! i).

(** [df[col]]: the column as a series. *)
Definition getitem (df : frame) (col : string) : list cell :=
  map (cell_at (columns df) col) (rows df).

(** [series == v]: element-wise equality with a string; a missing value is
    equal to no string. *)
Definition eq_scalar (s : list cell) (v : string) : list bool :=
  map (λ c, bool_decide (c = Some v)) s.

(** [mask | series], element-wise. *)
Definition mask_or (m s : list bool) : list bool := zip_with orb m s.

(** [~mask] *)
Definition mask_not (m : list bool) : list bool := map negb m.

(** [df[mask]]: the rows whose flag is set, in order. *)
Fixpoint bool_index {A} (m : list bool) (l : list A) : list A :=
  match m, l with
  | b :: m', x :: l' => if b then x :: bool_index m' l' else bool_index m' l'
  | _, _ => []
  end.

Definition loc (m : list bool) (df : frame) : frame :=
  Frame (columns df) (bool_index m (rows df)).

(** [df.empty] *)
Definition empty (df : frame) : bool :=
  match rows df with [] => true | _ => false end.

End Pd.

(** ** Text files *)

Definition path := list string.

Inductive sep := Comma | Tab.

Inductive line :=
| FileLine (rel : path)                 (* FILE: <rel> *)
| HeaderLine (s : sep) (cols : list string)
| RowLine (s : sep) (r : row)
| BlankLine.

Global Instance sep_eq_dec : EqDecision sep.
Proof. solve_decision. Defined.
Global Instance line_eq_dec : EqDecision line.
Proof. solve_decision. Defined.

(** [df.to_csv(sep=s, index=False, header=h)] as lines. *)
Definition to_csv (s : sep) (header : bool) (df : frame) : list line :=
  (if header then [HeaderLine s (columns df)] else []) ++ map (RowLine s) (rows df).

(** The data rows held by a text: the rows of a cleaned file, or the removed
    rows recorded in a log. *)
Definition data_rows (t : list line) : list row :=
  omap (λ l, match l with RowLine _ r => Some r | _ => None end) t.

(** ** The chunked reader

    [pd.read_csv(path, chunksize=n, dtype=str)] (line 37) parses the header
    and hands out the rows [n] at a time, each chunk under the same columns.
    Its first read always gives a frame: when the file has a header and no
    data row, pandas' parser answers the first read with the empty frame
    built from the header, and stops the iteration from the second read on.
    Any later read stops the iteration once the rows are exhausted, so a file
    of exactly [n] rows comes as one chunk. *)

Record reader := Reader { r_columns : list string; r_rest : list row; r_first : bool }.

Definition reader_next (n : nat) (r : reader) : option (frame * reader) :=
  match r_rest r with
  | [] =>
      if r_first r
      then Some (Frame (r_columns r) [], Reader (r_columns r) [] false)
      else None
  | _ :: _ =>
      Some (Frame (r_columns r) (take n (r_rest r)),
            Reader (r_columns r) (drop n (r_rest r)) false)
  end.

(** The chunks a [for] loop receives; [fuel] bounds the number of reads. *)
Fixpoint iterate (fuel n : nat) (r : reader) : list frame :=
  match fuel with
  | O => []
  | S fuel' =>
      match reader_next n r with
      | None => []
      | Some (chunk, r') => chunk :: iterate fuel' n r'
      end
  end.

Definition read_csv (chunksize : nat) (f : frame) : list frame :=
  iterate (S (length (rows f))) chunksize (Reader (columns f) (rows f) true).

Definition CHUNKSIZE : nat := N.to_nat 100000.


(** ** The file system and the console *)

Inductive message :=
| MsgSkip (rel : path)                  (* [SKIP] No state/district columns in <rel> *)
| MsgRemove (n : nat) (rel : path)      (* [REMOVE] <n> rows from <rel> *)
| MsgClean (rel : path)                 (* [CLEAN] No rows with value 100000 in <rel> *)
| MsgDirExists                          (* [INFO] Cleaned dataset dir exists *)
| MsgDirCreated                         (* [INFO] Created cleaned dataset dir *)
| MsgLogCleared                         (* [INFO] Cleared previous log *)
| MsgNoCsv                              (* [WARN] No CSV files found *)
| MsgFound (n : nat)                    (* [INFO] Found <n> CSV files *)
| MsgDone                               (* [DONE] Finished cleaning *)
| MsgLog.                               (* [LOG] Removed entries logged *)

(** What [DATA_DIR.rglob("*.csv")] meets: a directory, or a file with its
    parsed content. *)
Inductive node := Dir | File (f : frame).

Record world := World {
  data_dir : option (list (path * node));
    (* [None]: DATA_DIR does not exist; otherwise the paths matching *.csv,
       relative to DATA_DIR, in scan order *)
  cleaned_dirs : gset path;
    (* directories under CLEANED_ROOT, relative to it; [[]] is CLEANED_ROOT *)
  cleaned_files : gmap path (list line);
    (* files under CLEANED_ROOT *)
  log_file : option (list line);
    (* LOG_FILE, [None] when it does not exist *)
  console : list message
}.

Definition print (m : message) (w : world) : world :=
  World (data_dir w) (cleaned_dirs w) (cleaned_files w) (log_file w) (console w ++ [m]).

(** [d.mkdir(parents=True, exist_ok=True)] for a directory of the cleaned
    tree: [d] and all its ancestors up to CLEANED_ROOT exist afterwards. *)
Definition mkdir_parents (d : path) (w : world) : world :=
  World (data_dir w)
        (cleaned_dirs w ∪ list_to_set ((λ k, take k d) <$> seq 0 (S (length d))))
        (cleaned_files w) (log_file w) (console w).

(** [df.to_csv(target, mode="a", index=False, header=h)]: the file is opened
    for appending (and created when absent), what it held stays. *)
Definition to_csv_append (target : path) (header : bool) (df : frame) (w : world) : world :=
  World (data_dir w) (cleaned_dirs w)
        (<[target := default [] (cleaned_files w !! target) ++ to_csv Comma header df]>
           (cleaned_files w))
        (log_file w) (console w).

Definition unlink_log (w : world) : world :=
  World (data_dir w) (cleaned_dirs w) (cleaned_files w) None (console w).

(** The text of a cleaned file and of the log, empty when absent. *)
Definition cleaned_text (w : world) (rel : path) : list line :=
  default [] (cleaned_files w !! rel).

Definition log_text (w : world) : list line := default [] (log_file w).

(** ** [_write_log]

    Lines 21-26. The log is opened for appending, which creates it when it
    is absent, and the strings are written one after the other. (The parent
    of LOG_FILE is the directory of the script itself, so the [mkdir] of
    line 22 changes nothing.) *)

Definition _write_log (lines : list (list line)) (w : world) : world :=
  World (data_dir w) (cleaned_dirs w) (cleaned_files w)
        (Some (default [] (log_file w) ++ concat lines)) (console w).

(** ** [_process_file] *)

(** Truth value of an optional column name ([None] and the empty string are
    falsy). *)
Definition truthy (c : option string) : bool :=
  match c with Some s => Str.truthy s | None => false end.

(** Lines 46-50: the removal mask of a chunk; the scalar [False] is
    broadcast over the rows by the first [|]. *)
Definition build_mask (state_col district_col : option string) (chunk : frame) : list bool :=
  let mask := replicate (length (rows chunk)) false in
  let mask :=
    match state_col with
    | Some c => if Str.truthy c
                then Pd.mask_or mask (Pd.eq_scalar (Pd.getitem chunk c) "100000")
                else mask
    | None => mask
    end in
  let mask :=
    match district_col with
    | Some c => if Str.truthy c
                then Pd.mask_or mask (Pd.eq_scalar (Pd.getitem chunk c) "100000")
                else mask
    | None => mask
    end in
  mask.

Record loop_state := LoopState {
  first_chunk : bool;
  removed_any : bool;
  log_lines : list (list line)
}.

(** The body of the [for] loop, lines 38-63. The target of the writes is the
    path of the source file relative to DATA_DIR, taken under CLEANED_ROOT. *)
Definition loop_body (rel : path) (st : loop_state * world) (chunk : frame)
  : loop_state * world :=
  let '(s, w) := st in
  let '(state_col, district_col) := _state_district_columns (columns chunk) in
  if negb (truthy state_col) && negb (truthy district_col) then
    let w := if first_chunk s then print (MsgSkip rel) w else w in
    let w := to_csv_append rel (first_chunk s) chunk w in
    (LoopState false (removed_any s) (log_lines s), w)
  else
    let mask := build_mask state_col district_col chunk in
    let removed_rows := Pd.loc mask chunk in
    let kept_rows := Pd.loc (Pd.mask_not mask) chunk in
    let '(s, w) :=
      if negb (Pd.empty removed_rows) then
        (LoopState (first_chunk s) true
           (log_lines s ++ [[FileLine rel]; to_csv Tab true removed_rows; [BlankLine]]),
         print (MsgRemove (length (rows removed_rows)) rel) w)
      else (s, w) in
    let w := to_csv_append rel (first_chunk s) kept_rows w in
    (LoopState false (removed_any s) (log_lines s), w).

(** Lines 29-68 on the chunks the reader hands out: the parent directory of
    the target, the loop with [first_chunk = True], [removed_any = False] and
    [log_lines = []], then the flush of the log buffer and the closing
    notice. *)
Definition process_chunks (rel : path) (chunks : list frame) (w : world) : world :=
  let w := mkdir_parents (removelast rel) w in
  let '(s, w) := foldl (loop_body rel) (LoopState true false [], w) chunks in
  let w := if removed_any s && negb (bool_decide (log_lines s = []))
           then _write_log (log_lines s) w else w in
  let w := if negb (removed_any s) then print (MsgClean rel) w else w in
  w.

(** [_process_file(csv_path)], where [rel] is [csv_path] relative to DATA_DIR
    and [f] the parsed content of the file. *)
Definition process_file_with (chunksize : nat) (rel : path) (f : frame) (w : world) : world :=
  process_chunks rel (read_csv chunksize f) w.

Definition _process_file (rel : path) (f : frame) (w : world) : world :=
  process_file_with CHUNKSIZE rel f w.

(** ** [main]

    Lines 71-95. [rglob] and [is_file] select the files among the entries
    found; each is handed to [_process_file] in scan order. A scanned file
    is given by its parsed content, so the errors the parser or the operating
    system can raise inside [_process_file], which the script lets pass, are
    outside this model: apart from the missing data directory, what is said
    of [main] is said of runs that go through all their files. *)

Inductive exn := FileNotFoundError.
Inductive outcome := Returned | Raised (e : exn).

Definition is_file (e : path * node) : bool :=
  match e.2 with File _ => true | Dir => false end.

Definition process_entry (w : world) (e : path * node) : world :=
  match e.2 with
  | File f => _process_file e.1 f w
  | Dir => w
  end.

Definition main (w : world) : outcome * world :=
  match data_dir w with
  | None => (Raised FileNotFoundError, w)
  | Some entries =>
      let w := if bool_decide ([] ∈ cleaned_dirs w)
               then print MsgDirExists w
               else print MsgDirCreated (mkdir_parents [] w) in
      let w := match log_file w with
               | Some _ => print MsgLogCleared (unlink_log w)
               | None => w
               end in
      let csv_files := List.filter is_file entries in
      match csv_files with
      | [] => (Returned, print MsgNoCsv w)
      | _ :: _ =>
          let w := print (MsgFound (length csv_files)) w in
          let w := foldl process_entry w csv_files in
          (Returned, print MsgLog (print MsgDone w))
      end
  end.

(** * Specification vocabulary *)

(** ** The detector in terms of the header list *)

Definition matches (sub c : string) : bool := Str.contains sub (Str.lower c).

(** The spelling the dictionary keeps for the lowercased form of [c]. *)
Definition kept_spelling (columns : list string) (c : string) : option string :=
  last (filter (λ c', Str.lower c' = Str.lower c) columns).

Definition detect (sub : string) (columns : list string) : option string :=
  List.find (matches sub) columns ≫= kept_spelling columns.

(** The same notions over any case folding of the header names. *)
Definition matches_with (lower : string → string) (sub c : string) : bool :=
  Str.contains sub (lower c).

Definition kept_spelling_with (lower : string → string) (columns : list string) (c : string)
  : option string :=
  last (filter (λ c', lower c' = lower c) columns).

Definition detect_with (lower : string → string) (sub : string) (columns : list string)
  : option string :=
  List.find (matches_with lower sub) columns ≫= kept_spelling_with lower columns.

(** ** The removal rule, row by row *)

(** The role column [col] is present and the row holds the sentinel in it. *)
Definition has_sentinel (cols : list string) (col : option string) (r : row) : Prop :=
  match col with
  | Some c => Pd.cell_at cols c r = Some "100000"
  | None => False
  end.

Definition Removed (cols : list string) (r : row) : Prop :=
  has_sentinel cols (_state_district_columns cols).1 r
  ∨ has_sentinel cols (_state_district_columns cols).2 r.

Global Instance has_sentinel_dec cols col r : Decision (has_sentinel cols col r).
Proof. destruct col; cbn; apply _. Defined.

Global Instance Removed_dec cols r : Decision (Removed cols r).
Proof. unfold Removed. apply _. Defined.

Definition removed_rows (c : frame) : list row := filter (Removed (columns c)) (rows c).
Definition kept_rows (c : frame) : list row := filter (λ r, ¬ Removed (columns c) r) (rows c).

(** One removal record of the log. *)
Definition record (rel : path) (cols : list string) (rs : list row) : list line :=
  FileLine rel :: HeaderLine Tab cols :: map (RowLine Tab) rs ++ [BlankLine].

(** The flag the mask gives to a row. *)
Definition row_flag (state_col district_col : option string) (cols : list string) (r : row)
  : bool :=
  match state_col with
  | Some c => Str.truthy c && bool_decide (Pd.cell_at cols c r = Some "100000")
  | None => false
  end
  || match district_col with
     | Some c => Str.truthy c && bool_decide (Pd.cell_at cols c r = Some "100000")
     | None => false
     end.

(** ** What the loop does with one chunk and with a run of chunks *)

Definition no_roles (cols : list string) : bool :=
  negb (truthy (_state_district_columns cols).1)
  && negb (truthy (_state_district_columns cols).2).

Definition chunk_log (rel : path) (c : frame) : list (list line) :=
  match removed_rows c with
  | [] => []
  | _ :: _ => [[FileLine rel];
               to_csv Tab true (Frame (columns c) (removed_rows c));
               [BlankLine]]
  end.

Definition chunk_msgs (rel : path) (first : bool) (c : frame) : list message :=
  (if first && no_roles (columns c) then [MsgSkip rel] else [])
  ++ match removed_rows c with
     | [] => []
     | _ :: _ => [MsgRemove (length (removed_rows c)) rel]
     end.

Fixpoint out_lines (first : bool) (cs : list frame) : list line :=
  match cs with
  | [] => []
  | c :: cs' => to_csv Comma first (Frame (columns c) (kept_rows c)) ++ out_lines false cs'
  end.

Fixpoint run_msgs (rel : path) (first : bool) (cs : list frame) : list message :=
  match cs with
  | [] => []
  | c :: cs' => chunk_msgs rel first c ++ run_msgs rel false cs'
  end.

Definition run_log (rel : path) (cs : list frame) : list (list line) :=
  cs ≫= chunk_log rel.

Definition any_removed (cs : list frame) : bool :=
  existsb (λ c, negb (bool_decide (removed_rows c = []))) cs.

(** The FILE lines of a log, one per record. *)
Definition file_lines (t : list line) : list path :=
  omap (λ l, match l with FileLine p => Some p | _ => None end) t.

(** The last header matching a role, in header order. *)
Definition most_recent_match (sub : string) (columns : list string) : option string :=
  last (filter (λ c, matches sub c = true) columns).

(** ** What a call does with a whole file, and a run with a whole tree *)

(** The lines a call puts into the cleaned file, the lines it puts into the
    log, and what it prints. *)
Definition file_written (f : frame) : list line :=
  HeaderLine Comma (columns f) :: map (RowLine Comma) (kept_rows f).

Definition file_logged (rel : path) (f : frame) : list line :=
  concat (run_log rel (read_csv CHUNKSIZE f)).

Definition file_msgs (rel : path) (f : frame) : list message :=
  run_msgs rel true (read_csv CHUNKSIZE f)
  ++ if bool_decide (removed_rows f = []) then [MsgClean rel] else [].

(** The row counts announced by the [REMOVE] notices of a transcript. *)
Definition remove_counts (ms : list message) : list nat :=
  omap (λ m, match m with MsgRemove k _ => Some k | _ => None end) ms.

(** The files among the entries of a scan, with their paths. *)
Definition files_of (entries : list (path * node)) : list (path * frame) :=
  omap (λ e, match e.2 with File f => Some (e.1, f) | Dir => None end) entries.

(** The calls of [_process_file] made by the loop of lines 91-92. *)
Definition process_all (files : list (path * frame)) (w : world) : world :=
  foldl (λ w pf, _process_file pf.1 pf.2 w) w files.

(** Lines 75-83: the output root and the reset of the log. *)
Definition prepare (w : world) : world :=
  let w := if bool_decide ([] ∈ cleaned_dirs w)
           then print MsgDirExists w
           else print MsgDirCreated (mkdir_parents [] w) in
  match log_file w with
  | Some _ => print MsgLogCleared (unlink_log w)
  | None => w
  end.

(** ** Sample data *)

(** A case folding that, as [str.lower] does, also folds the capital letters
    of the Latin-1 range (U+00C0 to U+00DE without the multiplication sign),
    which UTF-8 writes as the byte 195 followed by a byte from 128 to 158. *)
Fixpoint lower_latin1 (s : string) : string :=
  match s with
  | EmptyString => EmptyString
  | String a t =>
      match t with
      | String b s' =>
          let n := nat_of_ascii b in
          if (nat_of_ascii a =? 195) && (128 <=? n) && (n <=? 158) && negb (n =? 151)
          then String a (String (ascii_of_nat (n + 32)) (lower_latin1 s'))
          else String (Str.lower_ascii a) (lower_latin1 t)
      | EmptyString => String (Str.lower_ascii a) EmptyString
      end
  end.

(** An existing, empty data directory and nothing else. *)
Definition fresh : world := World (Some []) ∅ ∅ None [].

Definition spec_file : frame :=
  Frame ["StateCode"; "District_Name"]
        [[Some "100000"; Some "X"]; [Some "12"; Some "100000"]; [Some "5"; Some "Y"]].

(** One more row than a chunk holds, each with the sentinel as its state. *)
Definition long_file : frame := Frame ["State"] (replicate (S CHUNKSIZE) [Some "100000"]).

Definition header_only : frame := Frame ["State"] [].

(** A second run over an unchanged input: the cleaned tree still holds the
    output of the first one. *)
Definition second_run : world :=
  World (Some [(["f.csv"], File (Frame ["State"] [[Some "5"]]))])
        {[ [] ]}
        {[ ["f.csv"] := [HeaderLine Comma ["State"]; RowLine Comma [Some "5"]] ]}
        None [].

(** * Properties *)

(** ** Strings *)

Lemma contains_empty sub : Str.contains sub "" = true → sub = "".
Proof. destruct sub; [done | by cbn]. Qed.

Lemma contains_truthy sub s :
  sub ≠ "" → Str.contains sub (Str.lower s) = true → Str.truthy s = true.
Proof.
  intros Hsub H. destruct s as [|a s]; [|done].
  cbn [Str.lower] in H. by apply contains_empty in H.
Qed.

(** ** Dictionaries built by a comprehension *)

Section dict_facts.
Context {K V : Type} `{EqDecision K}.
Implicit Types (d : list (K * V)) (l : list V) (key : V → K).

Lemma get_set k k' v d :
  PyDict.get k (PyDict.set k' v d) = if decide (k = k') then Some v else PyDict.get k d.
Proof.
  induction d as [|[k0 v0] d IH]; cbn.
  - by repeat case_decide.
  - destruct (decide (k' = k0)) as [->|Hne]; cbn; repeat case_decide; congruence.
Qed.

Lemma find_keys_set (P : K → bool) k v d :
  List.find P (PyDict.keys (PyDict.set k v d))
  = match List.find P (PyDict.keys d) with
    | Some k0 => Some k0
    | None => if P k then Some k else None
    end.
Proof.
  induction d as [|[k0 v0] d IH]; cbn; [done|].
  destruct (decide (k = k0)) as [->|Hne]; cbn.
  - destruct (P k0) eqn:HP; [done|].
    fold (PyDict.keys d). by destruct (List.find P (PyDict.keys d)).
  - destruct (P k0); [done|]. apply IH.
Qed.

Lemma comprehension_snoc key l c :
  PyDict.comprehension key (l ++ [c])
  = PyDict.set (key c) c (PyDict.comprehension key l).
Proof. unfold PyDict.comprehension. by rewrite foldl_snoc. Qed.

(** A key holds the last element that produced it. *)
Lemma get_comprehension key l k :
  PyDict.get k (PyDict.comprehension key l) = last (filter (λ c, key c = k) l).
Proof.
  induction l as [|c l IH] using rev_ind; [done|].
  rewrite comprehension_snoc, get_set, filter_app, IH.
  rewrite filter_cons, filter_nil.
  destruct (decide (k = key c)) as [->|Hne].
  - rewrite decide_True by done. by rewrite last_snoc.
  - rewrite decide_False by done. by rewrite app_nil_r.
Qed.

Lemma find_app {A} (P : A → bool) (l1 l2 : list A) :
  List.find P (l1 ++ l2)
  = match List.find P l1 with Some x => Some x | None => List.find P l2 end.
Proof. induction l1 as [|x l1 IH]; cbn; [done|]. by destruct (P x). Qed.

Lemma find_fmap {A B} (P : B → bool) (g : A → B) (l : list A) :
  List.find P (g <$> l) = g <$> List.find (λ x, P (g x)) l.
Proof. induction l as [|x l IH]; cbn; [done|]. by destruct (P (g x)). Qed.

(** The keys come in the order of their first occurrence, so the first key
    with a property is the key of the first element with it. *)
Lemma find_keys_comprehension (P : K → bool) key l :
  List.find P (PyDict.keys (PyDict.comprehension key l))
  = key <$> List.find (λ c, P (key c)) l.
Proof.
  induction l as [|c l IH] using rev_ind; [done|].
  rewrite comprehension_snoc, find_keys_set, IH, find_app.
  destruct (List.find _ l); cbn; [done|]. by destruct (P (key c)).
Qed.
End dict_facts.

(** ** The detector in terms of the header list *)

Lemma next_match_lower_cols sub columns :
  next_match sub (lower_cols columns) = detect sub columns.
Proof.
  unfold next_match, lower_cols, detect, kept_spelling.
  rewrite find_keys_comprehension.
  destruct (List.find _ columns) as [c|] eqn:Hf; cbn; [|done].
  apply get_comprehension.
Qed.

Lemma detector_detect columns :
  _state_district_columns columns = (detect "state" columns, detect "district" columns).
Proof. unfold _state_district_columns. by rewrite !next_match_lower_cols. Qed.

Lemma detect_Some sub columns c :
  detect sub columns = Some c → c ∈ columns ∧ matches sub c = true.
Proof.
  unfold detect, kept_spelling. intros H.
  destruct (List.find _ columns) as [c0|] eqn:Hf; cbn in H; [|done].
  apply find_some in Hf as [_ Hm].
  apply last_Some in H as [l' Hl'].
  assert (c ∈ filter (λ c', Str.lower c' = Str.lower c0) columns) as Hin.
  { rewrite Hl'. set_solver. }
  apply list_elem_of_filter in Hin as [Hlow Hin]. split; [done|].
  unfold matches in *. by rewrite Hlow.
Qed.

Lemma detect_truthy sub columns :
  sub ≠ "" → truthy (detect sub columns) = bool_decide (is_Some (detect sub columns)).
Proof.
  intros Hsub. destruct (detect sub columns) as [c|] eqn:Hd; cbn.
  - apply detect_Some in Hd as [_ Hm].
    by rewrite (contains_truthy sub c Hsub Hm).
  - done.
Qed.

(** ** The reader *)

Section reader_facts.
Variable n : nat.
Hypothesis Hn : 1 ≤ n.

Lemma read_csv_unfold f :
  read_csv n f
  = Frame (columns f) (take n (rows f))
    :: iterate (length (rows f)) n (Reader (columns f) (drop n (rows f)) false).
Proof.
  unfold read_csv. cbn [iterate]. unfold reader_next. cbn.
  destruct (rows f) as [|r rs] eqn:Hrows; [|done].
  by rewrite take_nil.
Qed.

(** Once the first chunk is out, the chunks are the remaining rows cut
    every [n] rows, and the reads end within [length rest] steps. *)
Lemma iterate_concat fuel cols rest :
  length rest ≤ fuel →
  concat (rows <$> iterate fuel n (Reader cols rest false)) = rest.
Proof.
  revert rest. induction fuel as [|fuel IH]; intros rest Hlen.
  - destruct rest; [done | cbn in Hlen; lia].
  - cbn [iterate]. unfold reader_next. cbn.
    destruct rest as [|r rs] eqn:Hrest; [done|]. rewrite <- Hrest in *.
    cbn [fmap list_fmap concat rows]. rewrite IH, take_drop; [done|].
    rewrite length_drop. subst rest. cbn in *. lia.
Qed.

Lemma iterate_columns fuel cols rest first :
  Forall (λ c, columns c = cols) (iterate fuel n (Reader cols rest first)).
Proof.
  revert rest first. induction fuel as [|fuel IH]; intros rest first; [constructor|].
  cbn [iterate]. unfold reader_next. cbn.
  destruct rest as [|r rs]; [destruct first|]; repeat constructor; auto.
Qed.

Lemma iterate_fuel fuel fuel' cols rest :
  length rest ≤ fuel → length rest ≤ fuel' →
  iterate fuel n (Reader cols rest false) = iterate fuel' n (Reader cols rest false).
Proof.
  revert fuel' rest. induction fuel as [|fuel IH]; intros fuel' rest H1 H2.
  - destruct rest; [|cbn in H1; lia]. by destruct fuel'.
  - destruct fuel' as [|fuel'].
    + destruct rest; [done | cbn in H2; lia].
    + cbn [iterate]. unfold reader_next. cbn.
      destruct rest as [|r rs] eqn:Hrest; [done|]. rewrite <- Hrest in *.
      f_equal. apply IH; rewrite length_drop; subst rest; cbn in *; lia.
Qed.

(** The loop over the reader terminates: the fuel given by [read_csv] is
    enough, more fuel yields the same chunks. *)
Lemma read_csv_complete f fuel :
  S (length (rows f)) ≤ fuel →
  iterate fuel n (Reader (columns f) (rows f) true) = read_csv n f.
Proof.
  intros Hfuel. destruct fuel as [|fuel]; [lia|].
  rewrite read_csv_unfold. cbn [iterate]. unfold reader_next. cbn.
  destruct (rows f) as [|r rs] eqn:Hrows.
  - rewrite take_nil. f_equal. by destruct fuel.
  - rewrite <- Hrows in *. f_equal.
    apply iterate_fuel; rewrite length_drop; lia.
Qed.

Lemma read_csv_concat f : concat (rows <$> read_csv n f) = rows f.
Proof.
  rewrite read_csv_unfold. cbn [fmap list_fmap concat rows].
  rewrite iterate_concat, take_drop; [done|]. rewrite length_drop. lia.
Qed.

Lemma read_csv_columns f : Forall (λ c, columns c = columns f) (read_csv n f).
Proof. apply iterate_columns. Qed.

(** A file of at most [n] rows comes as one chunk, the whole file. *)
Lemma read_csv_single f : length (rows f) ≤ n → read_csv n f = [f].
Proof.
  intros Hlen. rewrite read_csv_unfold, take_ge, drop_ge by done.
  destruct f as [cols rs]. cbn. by destruct (length rs).
Qed.

(** A file of more than [n] and at most [2 n] rows comes as two chunks. *)
Lemma read_csv_two f :
  n < length (rows f) → length (rows f) ≤ 2 * n →
  read_csv n f = [Frame (columns f) (take n (rows f)); Frame (columns f) (drop n (rows f))].
Proof.
  intros Hlt Hle. rewrite read_csv_unfold. f_equal.
  destruct (length (rows f)) as [|k] eqn:Hk; [lia|].
  cbn [iterate]. unfold reader_next. cbn.
  destruct (drop n (rows f)) as [|r rs] eqn:Hdrop.
  - apply (f_equal length) in Hdrop. rewrite length_drop in Hdrop. cbn in Hdrop. lia.
  - rewrite <- Hdrop. rewrite take_ge by (rewrite length_drop; lia).
    f_equal. rewrite drop_ge by (rewrite length_drop; lia). by destruct k.
Qed.
End reader_facts.

Lemma CHUNKSIZE_pos : 1 ≤ CHUNKSIZE.
Proof. unfold CHUNKSIZE. lia. Qed.

(** ** The mask *)

Lemma bool_index_map {A} (p : A → bool) (l : list A) :
  Pd.bool_index (map p l) l = filter (λ x, p x = true) l.
Proof.
  induction l as [|x l IH]; [done|].
  cbn [map Pd.bool_index]. rewrite filter_cons, IH.
  destruct (p x); [by rewrite decide_True | by rewrite decide_False].
Qed.

Lemma filter_all {A} (P : A → Prop) `{!∀ x, Decision (P x)} (l : list A) :
  (∀ x, x ∈ l → P x) → filter P l = l.
Proof.
  induction l as [|x l IH]; intros Hall; [done|].
  rewrite filter_cons_True by (apply Hall; left). f_equal. apply IH. intros y Hy. apply Hall. by right.
Qed.

Lemma filter_none {A} (P : A → Prop) `{!∀ x, Decision (P x)} (l : list A) :
  (∀ x, x ∈ l → ¬ P x) → filter P l = [].
Proof.
  induction l as [|x l IH]; intros Hall; [done|].
  rewrite filter_cons_False by (apply Hall; left). apply IH. intros y Hy. apply Hall. by right.
Qed.

Lemma build_mask_map sc dc cols rs :
  build_mask sc dc (Frame cols rs) = map (row_flag sc dc cols) rs.
Proof.
  unfold build_mask, row_flag, Pd.getitem, Pd.eq_scalar, Pd.mask_or. cbn.
  destruct sc as [s|], dc as [d|]; try destruct (Str.truthy s); try destruct (Str.truthy d);
    induction rs as [|r rs IH]; cbn in *; try done; f_equal; try done;
    by rewrite ?orb_false_r.
Qed.

Lemma row_flag_Removed cols r :
  row_flag (_state_district_columns cols).1 (_state_district_columns cols).2 cols r = true
  ↔ Removed cols r.
Proof.
  unfold Removed, row_flag. rewrite detector_detect. cbn [fst snd].
  rewrite orb_true_iff.
  assert (∀ sub, sub ≠ "" →
    match detect sub cols with
    | Some c => Str.truthy c && bool_decide (Pd.cell_at cols c r = Some "100000")
    | None => false
    end = true ↔ has_sentinel cols (detect sub cols) r) as Hrole.
  { intros sub Hsub. pose proof (detect_truthy sub cols Hsub) as Ht.
    destruct (detect sub cols) as [c|]; cbn in *; [|done].
    rewrite Ht. cbn. by rewrite bool_decide_eq_true. }
  by rewrite !Hrole.
Qed.

Lemma loc_mask c :
  Pd.loc (build_mask (_state_district_columns (columns c)).1
                     (_state_district_columns (columns c)).2 c) c
  = Frame (columns c) (removed_rows c).
Proof.
  destruct c as [cols rs]. unfold Pd.loc, removed_rows. cbn [columns rows].
  rewrite build_mask_map, bool_index_map. f_equal.
  apply list_filter_iff. intros r. apply row_flag_Removed.
Qed.

Lemma loc_mask_not c :
  Pd.loc (Pd.mask_not (build_mask (_state_district_columns (columns c)).1
                                  (_state_district_columns (columns c)).2 c)) c
  = Frame (columns c) (kept_rows c).
Proof.
  destruct c as [cols rs]. unfold Pd.loc, Pd.mask_not, kept_rows. cbn [columns rows].
  rewrite build_mask_map, map_map, bool_index_map. f_equal.
  apply list_filter_iff. intros r. rewrite <- row_flag_Removed.
  destruct (row_flag _ _ cols r); cbn; naive_solver.
Qed.

Lemma has_sentinel_iff cols col r :
  has_sentinel cols col r ↔ ∃ c, col = Some c ∧ Pd.cell_at cols c r = Some "100000".
Proof.
  destruct col as [c0|]; cbn; split.
  - eauto.
  - by intros (c & [= <-] & ?).
  - done.
  - by intros (c & ? & _).
Qed.

(** Without a role column nothing is removed. *)
Lemma no_roles_Removed cols r : no_roles cols = true → ¬ Removed cols r.
Proof.
  unfold no_roles, Removed. rewrite detector_detect. cbn [fst snd].
  rewrite andb_true_iff, !negb_true_iff, !detect_truthy by done.
  intros [H1 H2].
  destruct (detect "state" cols), (detect "district" cols); cbn in *; try done.
  by intros [[]|[]].
Qed.

Lemma no_roles_rows c :
  no_roles (columns c) = true → removed_rows c = [] ∧ kept_rows c = rows c.
Proof.
  intros H. unfold removed_rows, kept_rows. split.
  - apply filter_none. intros r _. by apply no_roles_Removed.
  - apply filter_all. intros r _. by apply no_roles_Removed.
Qed.

(** ** The loop in closed form *)

Lemma loop_body_closed rel s w c :
  loop_body rel (s, w) c
  = (LoopState false
       (removed_any s || negb (bool_decide (removed_rows c = [])))
       (log_lines s ++ chunk_log rel c),
     World (data_dir w) (cleaned_dirs w)
           (<[rel := cleaned_text w rel
                     ++ to_csv Comma (first_chunk s) (Frame (columns c) (kept_rows c))]>
              (cleaned_files w))
           (log_file w)
           (console w ++ chunk_msgs rel (first_chunk s) c)).
Proof.
  unfold loop_body.
  pose proof (loc_mask c) as Hrem. pose proof (loc_mask_not c) as Hkept.
  pose proof (no_roles_rows c) as Hnone.
  unfold chunk_msgs, chunk_log, no_roles in *.
  destruct (_state_district_columns (columns c)) as [sc dc]. cbn [fst snd] in *.
  destruct (negb (truthy sc) && negb (truthy dc)) eqn:Hroles.
  - destruct Hnone as [-> ->]; [done|]. rewrite andb_true_r.
    destruct c as [cols rs]. cbn [columns rows].
    unfold to_csv_append, print, cleaned_text. cbn.
    rewrite orb_false_r, !app_nil_r.
    destruct s as [[] ra ll]; cbn; by rewrite ?app_nil_r.
  - rewrite Hrem, Hkept, andb_false_r. unfold Pd.empty. cbn [rows app].
    destruct (removed_rows c) as [|r rs] eqn:Hr; cbn.
    + unfold to_csv_append, cleaned_text. cbn.
      rewrite orb_false_r, !app_nil_r. by destruct s.
    + unfold to_csv_append, print, cleaned_text. cbn.
      by rewrite orb_true_r.
Qed.

Lemma foldl_loop_body rel cs c s w :
  foldl (loop_body rel) (s, w) (c :: cs)
  = (LoopState false
       (removed_any s || any_removed (c :: cs))
       (log_lines s ++ run_log rel (c :: cs)),
     World (data_dir w) (cleaned_dirs w)
           (<[rel := cleaned_text w rel ++ out_lines (first_chunk s) (c :: cs)]>
              (cleaned_files w))
           (log_file w)
           (console w ++ run_msgs rel (first_chunk s) (c :: cs))).
Proof.
  revert c s w. induction cs as [|c' cs IH]; intros c s w.
  - cbn [foldl]. rewrite loop_body_closed.
    unfold any_removed, run_log. cbn. by rewrite !app_nil_r, orb_false_r.
  - change (foldl (loop_body rel) (s, w) (c :: c' :: cs))
      with (foldl (loop_body rel) (loop_body rel (s, w) c) (c' :: cs)).
    rewrite loop_body_closed, IH. cbn [first_chunk removed_any log_lines].
    unfold cleaned_text. cbn [data_dir cleaned_dirs cleaned_files log_file console].
    rewrite lookup_insert_eq, insert_insert_eq. cbn [default].
    f_equal.
    + f_equal.
      * change (any_removed (c :: c' :: cs))
          with (negb (bool_decide (removed_rows c = [])) || any_removed (c' :: cs)).
        by rewrite orb_assoc.
      * change (run_log rel (c :: c' :: cs))
          with (chunk_log rel c ++ run_log rel (c' :: cs)).
        by rewrite app_assoc.
    + cbn [out_lines run_msgs]. unfold id. by rewrite !app_assoc.
Qed.

Lemma any_removed_run_log rel cs : any_removed cs = true → run_log rel cs ≠ [].
Proof.
  unfold any_removed, run_log. induction cs as [|c cs IH]; cbn; [done|].
  unfold chunk_log at 1. destruct (removed_rows c); cbn; [auto | done].
Qed.

(** The world after [process_chunks] on a non-empty run of chunks. *)
Lemma process_chunks_closed rel c cs w :
  process_chunks rel (c :: cs) w
  = World (data_dir w)
          (cleaned_dirs (mkdir_parents (removelast rel) w))
          (<[rel := cleaned_text w rel ++ out_lines true (c :: cs)]> (cleaned_files w))
          (if any_removed (c :: cs)
           then Some (log_text w ++ concat (run_log rel (c :: cs)))
           else log_file w)
          (console w ++ run_msgs rel true (c :: cs)
           ++ if any_removed (c :: cs) then [] else [MsgClean rel]).
Proof.
  unfold process_chunks. rewrite foldl_loop_body.
  cbn [first_chunk removed_any log_lines orb app].
  destruct (any_removed (c :: cs)) eqn:Hany.
  - apply (any_removed_run_log rel) in Hany.
    rewrite bool_decide_eq_false_2 by done. cbn.
    unfold _write_log, log_text. cbn. by rewrite app_nil_r.
  - cbn. unfold print. cbn. by rewrite <- app_assoc.
Qed.

(** ** Runs of chunks that share their columns *)

Lemma data_rows_app t1 t2 : data_rows (t1 ++ t2) = data_rows t1 ++ data_rows t2.
Proof. unfold data_rows. apply omap_app. Qed.

Lemma data_rows_rows s rs : data_rows (map (RowLine s) rs) = rs.
Proof. induction rs as [|r rs IH]; cbn; [done|]. by f_equal. Qed.

Lemma data_rows_to_csv s h df : data_rows (to_csv s h df) = rows df.
Proof.
  unfold to_csv. rewrite data_rows_app, data_rows_rows. by destruct h.
Qed.

Lemma data_rows_record rel cols rs : data_rows (record rel cols rs) = rs.
Proof.
  unfold record. change (data_rows (?a :: ?b :: ?t)) with (data_rows t).
  rewrite data_rows_app, data_rows_rows. cbn. by rewrite app_nil_r.
Qed.

Lemma concat_chunk_log rel c :
  concat (chunk_log rel c)
  = match removed_rows c with
    | [] => []
    | _ :: _ => record rel (columns c) (removed_rows c)
    end.
Proof.
  unfold chunk_log, record, to_csv. destruct (removed_rows c); [done|].
  cbn. by rewrite ?app_nil_r.
Qed.

Lemma concat_run_log rel cs :
  concat (run_log rel cs) = cs ≫= (λ c, concat (chunk_log rel c)).
Proof.
  unfold run_log. induction cs as [|c cs IH]; [done|].
  cbn [mbind list_bind]. by rewrite concat_app, IH.
Qed.

Lemma data_rows_run_log rel cs :
  data_rows (concat (run_log rel cs)) = concat (removed_rows <$> cs).
Proof.
  rewrite concat_run_log. induction cs as [|c cs IH]; [done|].
  cbn [mbind list_bind fmap list_fmap concat]. rewrite data_rows_app, IH. f_equal.
  rewrite concat_chunk_log. destruct (removed_rows c) eqn:Hr; [done|].
  rewrite <- Hr. apply data_rows_record.
Qed.

Lemma out_lines_false cs :
  out_lines false cs = map (RowLine Comma) (concat (kept_rows <$> cs)).
Proof.
  induction cs as [|c cs IH]; [done|].
  cbn [out_lines fmap list_fmap concat]. rewrite map_app, IH. done.
Qed.

Lemma out_lines_true c cs :
  out_lines true (c :: cs)
  = HeaderLine Comma (columns c) :: map (RowLine Comma) (concat (kept_rows <$> c :: cs)).
Proof.
  cbn [out_lines fmap list_fmap concat]. rewrite out_lines_false, map_app. done.
Qed.

Lemma concat_removed_rows cols cs :
  Forall (λ c, columns c = cols) cs →
  concat (removed_rows <$> cs) = filter (Removed cols) (concat (rows <$> cs)).
Proof.
  induction 1 as [|c cs' Hc _ IH]; [done|].
  cbn [fmap list_fmap concat]. rewrite filter_app, IH.
  unfold removed_rows. by rewrite Hc.
Qed.

Lemma concat_kept_rows cols cs :
  Forall (λ c, columns c = cols) cs →
  concat (kept_rows <$> cs) = filter (λ r, ¬ Removed cols r) (concat (rows <$> cs)).
Proof.
  induction 1 as [|c cs' Hc _ IH]; [done|].
  cbn [fmap list_fmap concat]. rewrite filter_app, IH.
  unfold kept_rows. by rewrite Hc.
Qed.

Lemma any_removed_false cols cs :
  Forall (λ c, columns c = cols) cs →
  any_removed cs = false ↔ filter (Removed cols) (concat (rows <$> cs)) = [].
Proof.
  intros Hcols. rewrite <- (concat_removed_rows _ _ Hcols). clear Hcols.
  unfold any_removed. induction cs as [|c cs' IH]; [done|].
  cbn [existsb fmap list_fmap concat]. rewrite orb_false_iff, IH, negb_false_iff.
  rewrite bool_decide_eq_true. split.
  - by intros [-> ->].
  - intros H. by apply app_eq_nil in H.
Qed.

(** ** [_process_file] in terms of the whole file *)

Section process_file_facts.
Variable n : nat.
Hypothesis Hn : 1 ≤ n.
Variables (rel : path) (f : frame) (w : world).

Lemma process_file_cleaned :
  cleaned_files (process_file_with n rel f w)
  = <[rel := cleaned_text w rel
             ++ HeaderLine Comma (columns f) :: map (RowLine Comma) (kept_rows f)]>
      (cleaned_files w).
Proof using Hn.
  unfold process_file_with.
  pose proof (read_csv_columns n f) as Hcols.
  pose proof (read_csv_concat n Hn f) as Hcat.
  rewrite read_csv_unfold in *. rewrite process_chunks_closed. cbn [cleaned_files].
  rewrite out_lines_true, (concat_kept_rows (columns f)), Hcat by done. done.
Qed.

Lemma process_file_log :
  log_text (process_file_with n rel f w)
  = log_text w ++ concat (run_log rel (read_csv n f)).
Proof using Hn.
  unfold process_file_with.
  rewrite read_csv_unfold. rewrite process_chunks_closed.
  unfold log_text at 1. cbn [log_file].
  destruct (any_removed _) eqn:Hany; [done|].
  enough (run_log rel
            (Frame (columns f) (take n (rows f))
             :: iterate (length (rows f)) n (Reader (columns f) (drop n (rows f)) false))
          = []) as -> by (by rewrite app_nil_r).
  destruct (run_log rel _) eqn:Hl; [done|].
  apply not_true_iff_false in Hany. destruct Hany.
  clear -Hl. unfold any_removed, run_log in *.
  induction (_ :: _) as [|c cs IH] in Hl |- *; [done|].
  cbn [existsb]. cbn [mbind list_bind] in Hl. unfold chunk_log in Hl at 1.
  destruct (removed_rows c); [|done]. cbn in *. auto.
Qed.

Lemma process_file_log_rows :
  data_rows (concat (run_log rel (read_csv n f))) = removed_rows f.
Proof using Hn.
  rewrite data_rows_run_log, (concat_removed_rows (columns f)), read_csv_concat; try done.
  apply read_csv_columns.
Qed.

Lemma process_file_log_file :
  removed_rows f = [] → log_file (process_file_with n rel f w) = log_file w.
Proof using Hn.
  intros Hnone. unfold process_file_with.
  pose proof (read_csv_columns n f) as Hcols.
  pose proof (read_csv_concat n Hn f) as Hcat.
  rewrite read_csv_unfold in *. rewrite process_chunks_closed. cbn [log_file].
  pose proof (any_removed_false _ _ Hcols) as Hiff. rewrite Hcat in Hiff.
  apply Hiff in Hnone. by rewrite Hnone.
Qed.
End process_file_facts.

(** ** Row partition of a file *)

(** What one call appends: the output file gets the header line and the rows
    that are not removed, in order. *)
Lemma process_file_written rel f w :
  cleaned_text (_process_file rel f w) rel
  = cleaned_text w rel ++ HeaderLine Comma (columns f) :: map (RowLine Comma) (kept_rows f).
Proof.
  unfold _process_file, cleaned_text at 1.
  rewrite process_file_cleaned by apply CHUNKSIZE_pos. by rewrite lookup_insert_eq.
Qed.

Lemma process_file_logged rel f w :
  log_text (_process_file rel f w)
  = log_text w ++ concat (run_log rel (read_csv CHUNKSIZE f)).
Proof. apply process_file_log, CHUNKSIZE_pos. Qed.

Lemma logged_rows rel f :
  data_rows (concat (run_log rel (read_csv CHUNKSIZE f))) = removed_rows f.
Proof. apply process_file_log_rows, CHUNKSIZE_pos. Qed.

Lemma written_rows f :
  data_rows (HeaderLine Comma (columns f) :: map (RowLine Comma) (kept_rows f)) = kept_rows f.
Proof. apply (data_rows_to_csv Comma true (Frame (columns f) (kept_rows f))). Qed.

(** C1. For every input file, the rows the call writes to the cleaned file
    are exactly the rows of the input that are not removed, and the rows it
    records in the log are exactly the removed ones; a row is removed iff a
    state column was detected and the row's value in it is the string
    "100000", or a district column was detected and the row's value in it is
    the string "100000" (equality of strings, nothing else); with no role
    column every row is kept. *)
Theorem C1_row_kept_iff_not_removed rel f w :
  ∃ written logged,
    cleaned_text (_process_file rel f w) rel = cleaned_text w rel ++ written
    ∧ log_text (_process_file rel f w) = log_text w ++ logged
    ∧ (∀ r, r ∈ data_rows written ↔ r ∈ rows f ∧ r ∉ data_rows logged)
    ∧ (∀ r, r ∈ data_rows logged ↔
         r ∈ rows f
         ∧ ((∃ c, (_state_district_columns (columns f)).1 = Some c
                  ∧ Pd.cell_at (columns f) c r = Some "100000")
            ∨ (∃ c, (_state_district_columns (columns f)).2 = Some c
                    ∧ Pd.cell_at (columns f) c r = Some "100000")))
    ∧ (_state_district_columns (columns f) = (None, None) →
         data_rows written = rows f ∧ data_rows logged = []).
Proof.
  eexists _, _. split; [apply process_file_written|].
  split; [apply process_file_logged|].
  rewrite written_rows, logged_rows. unfold kept_rows, removed_rows.
  assert (∀ r, Removed (columns f) r ↔
            (∃ c, (_state_district_columns (columns f)).1 = Some c
                  ∧ Pd.cell_at (columns f) c r = Some "100000")
            ∨ (∃ c, (_state_district_columns (columns f)).2 = Some c
                    ∧ Pd.cell_at (columns f) c r = Some "100000")) as HR.
  { intros r. unfold Removed. by rewrite !has_sentinel_iff. }
  split; [|split].
  - intros r. rewrite !list_elem_of_filter. tauto.
  - intros r. rewrite list_elem_of_filter, HR. tauto.
  - intros Hnone. split.
    + apply filter_all. intros r _. rewrite HR, Hnone. cbn.
      by intros [(c & [=] & _)|(c & [=] & _)].
    + apply filter_none. intros r _. rewrite HR, Hnone. cbn.
      by intros [(c & [=] & _)|(c & [=] & _)].
Qed.

Lemma C1_row_kept_iff_not_removed_witness :
  ∃ written logged,
    cleaned_text (_process_file ["f.csv"] (Frame ["ID"] [[Some "100000"]]) fresh) ["f.csv"]
    = written
    ∧ log_text (_process_file ["f.csv"] (Frame ["ID"] [[Some "100000"]]) fresh) = logged
    ∧ data_rows written = [[Some "100000"]] ∧ data_rows logged = [].
Proof.
  destruct (C1_row_kept_iff_not_removed ["f.csv"] (Frame ["ID"] [[Some "100000"]]) fresh)
    as (written & logged & Hw & Hl & _ & _ & Hnone).
  exists written, logged. split; [exact Hw|]. split; [exact Hl|].
  apply Hnone. reflexivity.
Defined.

(** C2. The rows written to the cleaned file and the rows recorded in the log
    add up to the rows of the input: together they are the input rows, each
    on one side only. *)
Theorem C2_kept_plus_removed_is_input rel f w :
  ∃ written logged,
    cleaned_text (_process_file rel f w) rel = cleaned_text w rel ++ written
    ∧ log_text (_process_file rel f w) = log_text w ++ logged
    ∧ length (data_rows written) + length (data_rows logged) = length (rows f)
    ∧ data_rows written ++ data_rows logged ≡ₚ rows f
    ∧ (∀ r, ¬ (r ∈ data_rows written ∧ r ∈ data_rows logged)).
Proof.
  eexists _, _. split; [apply process_file_written|].
  split; [apply process_file_logged|].
  rewrite written_rows, logged_rows. unfold kept_rows, removed_rows.
  assert (filter (λ r, ¬ Removed (columns f) r) (rows f)
          ++ filter (Removed (columns f)) (rows f) ≡ₚ rows f) as Hperm.
  { rewrite (comm (++)). apply filter_app_complement. }
  split; [|split]; [|done|].
  - rewrite <- length_app. by rewrite Hperm.
  - intros r. rewrite !list_elem_of_filter. tauto.
Qed.

(** C3. The rows written to the cleaned file, and the rows recorded in the
    log, are each a subsequence of the input rows in the original order. *)
Theorem C3_order_preserved rel f w :
  ∃ written logged,
    cleaned_text (_process_file rel f w) rel = cleaned_text w rel ++ written
    ∧ log_text (_process_file rel f w) = log_text w ++ logged
    ∧ data_rows written `sublist_of` rows f
    ∧ data_rows logged `sublist_of` rows f.
Proof.
  eexists _, _. split; [apply process_file_written|].
  split; [apply process_file_logged|].
  rewrite written_rows, logged_rows. split; apply sublist_filter.
Qed.

(** Any chunk size gives the cleaned file and the logged rows of the
    one-chunk run. *)
Lemma chunksize_irrelevant n rel f w :
  1 ≤ n →
  cleaned_files (process_file_with n rel f w) = cleaned_files (process_chunks rel [f] w)
  ∧ data_rows (log_text (process_file_with n rel f w))
    = data_rows (log_text (process_chunks rel [f] w)).
Proof.
  intros Hn.
  assert (process_chunks rel [f] w = process_file_with (S (length (rows f))) rel f w) as ->.
  { unfold process_file_with. rewrite read_csv_single by lia. done. }
  rewrite !process_file_cleaned by lia. split; [done|].
  rewrite !process_file_log, !data_rows_app, !process_file_log_rows by lia. done.
Qed.

(** C4. Reading the file 100,000 rows at a time gives the same cleaned file,
    hence the same kept rows in the same order, and the same removed rows in
    the same order, as handling the whole file as one chunk. *)
Theorem C4_chunking_has_no_effect rel f w :
  cleaned_files (_process_file rel f w) = cleaned_files (process_chunks rel [f] w)
  ∧ data_rows (cleaned_text (_process_file rel f w) rel)
    = data_rows (cleaned_text (process_chunks rel [f] w) rel)
  ∧ data_rows (log_text (_process_file rel f w))
    = data_rows (log_text (process_chunks rel [f] w)).
Proof.
  destruct (chunksize_irrelevant CHUNKSIZE rel f w CHUNKSIZE_pos) as [Hfiles Hlog].
  split; [done|]. split; [|done].
  unfold cleaned_text. fold (_process_file rel f w) in Hfiles. by rewrite Hfiles.
Qed.

(** ** The log records of a file *)

Lemma file_lines_app t1 t2 : file_lines (t1 ++ t2) = file_lines t1 ++ file_lines t2.
Proof. unfold file_lines. apply omap_app. Qed.

Lemma file_lines_record rel cols rs : file_lines (record rel cols rs) = [rel].
Proof.
  unfold record. cbn. f_equal. rewrite file_lines_app. cbn.
  rewrite app_nil_r. induction rs as [|r rs IH]; [done | apply IH].
Qed.

Lemma removed_rows_replicate cols k r :
  Removed cols r → removed_rows (Frame cols (replicate k r)) = replicate k r.
Proof.
  intros HR. unfold removed_rows. cbn [columns rows].
  apply filter_all. by intros x [-> _]%elem_of_replicate.
Qed.

(** A file one row longer than a chunk, all of whose rows are removed, gets
    two records. *)
Lemma two_chunks_two_records n rel cols r w :
  1 ≤ n → Removed cols r →
  file_lines (log_text (process_file_with n rel (Frame cols (replicate (S n) r)) w))
  = file_lines (log_text w) ++ [rel; rel].
Proof.
  intros Hn HR. rewrite process_file_log by done.
  rewrite read_csv_two by (cbn [rows]; rewrite ?length_replicate; lia).
  cbn [columns rows]. rewrite take_replicate, drop_replicate.
  replace (n `min` S n) with n by lia. replace (S n - n) with 1 by lia.
  rewrite file_lines_app, concat_run_log. cbn [mbind list_bind].
  rewrite !concat_chunk_log, !removed_rows_replicate by done.
  destruct n as [|n]; [lia|].
  cbn [replicate columns]. by rewrite app_nil_r, file_lines_app, !file_lines_record.
Qed.

Lemma Removed_sentinel_state : Removed ["State"] [Some "100000"].
Proof. left. reflexivity. Qed.

Lemma two_chunks_not_one_record n rel cols r :
  1 ≤ n → Removed cols r →
  removed_rows (Frame cols (replicate (S n) r)) ≠ []
  ∧ log_text (process_file_with n rel (Frame cols (replicate (S n) r)) fresh)
    ≠ record rel cols (removed_rows (Frame cols (replicate (S n) r))).
Proof.
  intros Hn HR. rewrite removed_rows_replicate by done.
  split; [done|]. intros Heq. apply (f_equal file_lines) in Heq.
  rewrite two_chunks_two_records in Heq by done.
  by rewrite file_lines_record in Heq.
Qed.

(** C5 as stated fails: the file [long_file] has removed rows in two chunks
    and its log holds two records for it, not the single record with all its
    removed rows. *)
Lemma C5_two_records_for_one_file :
  removed_rows long_file ≠ []
  ∧ log_text (_process_file ["f.csv"] long_file fresh)
    ≠ record ["f.csv"] (columns long_file) (removed_rows long_file).
Proof.
  exact (two_chunks_not_one_record CHUNKSIZE ["f.csv"] ["State"] [Some "100000"]
           CHUNKSIZE_pos Removed_sentinel_state).
Qed.

(** C5, amended. The log receives one record per chunk that has a removed
    row, in chunk order, each made of the FILE line, the header line, the
    removed rows of that chunk and a blank line; a file that fits in one
    chunk and has a removed row gets exactly one record, holding all its
    removed rows; a file without removed rows leaves the log as it was. *)
Theorem C5_one_record_per_chunk rel f w :
  log_text (_process_file rel f w)
  = log_text w
    ++ (read_csv CHUNKSIZE f ≫= λ c,
          match removed_rows c with
          | [] => []
          | _ :: _ => record rel (columns f) (removed_rows c)
          end)
  ∧ (length (rows f) ≤ CHUNKSIZE → removed_rows f ≠ [] →
       log_text (_process_file rel f w)
       = log_text w ++ record rel (columns f) (removed_rows f))
  ∧ (removed_rows f = [] → log_file (_process_file rel f w) = log_file w).
Proof.
  split; [|split].
  - rewrite process_file_logged, concat_run_log. f_equal.
    pose proof (read_csv_columns CHUNKSIZE f) as Hcols.
    induction Hcols as [|c cs Hc _ IH]; [done|].
    cbn [mbind list_bind]. by rewrite IH, concat_chunk_log, Hc.
  - intros Hlen Hrem. rewrite process_file_logged.
    rewrite read_csv_single by (apply CHUNKSIZE_pos || done).
    rewrite concat_run_log. cbn [mbind list_bind]. rewrite app_nil_r, concat_chunk_log.
    by destruct (removed_rows f).
  - apply process_file_log_file, CHUNKSIZE_pos.
Qed.

Lemma C5_one_record_per_chunk_witness :
  log_text (_process_file ["f.csv"] spec_file fresh)
  = [FileLine ["f.csv"]; HeaderLine Tab ["StateCode"; "District_Name"];
     RowLine Tab [Some "100000"; Some "X"]; RowLine Tab [Some "12"; Some "100000"];
     BlankLine].
Proof.
  refine (proj1 (proj2 (C5_one_record_per_chunk ["f.csv"] spec_file fresh)) _ _).
  - unfold CHUNKSIZE. cbn. lia.
  - vm_compute. discriminate.
Defined.

(** ** Existing output files *)

(** What a cleaned file held before the call is still there afterwards, in
    front of what the call writes. *)
Lemma process_file_keeps_old rel f w old :
  cleaned_files w !! rel = Some old →
  cleaned_files (_process_file rel f w) !! rel
  = Some (old ++ HeaderLine Comma (columns f) :: map (RowLine Comma) (kept_rows f)).
Proof.
  intros Hold. unfold _process_file.
  rewrite process_file_cleaned by apply CHUNKSIZE_pos.
  rewrite lookup_insert_eq. unfold cleaned_text. by rewrite Hold.
Qed.

(** C6 does not hold of the code: a run over an output tree that already
    holds a cleaned file leaves the old lines in place and writes the header
    and the rows after them. *)
Theorem C6_old_output_survives :
  main second_run
  = (Returned,
     World (data_dir second_run) {[ [] ]}
           {[ ["f.csv"] := [HeaderLine Comma ["State"]; RowLine Comma [Some "5"];
                             HeaderLine Comma ["State"]; RowLine Comma [Some "5"]] ]}
           None
           [MsgDirExists; MsgFound 1; MsgClean ["f.csv"]; MsgDone; MsgLog]).
Proof.
  unfold main, second_run. cbn [data_dir List.filter is_file snd foldl process_entry fst].
  unfold _process_file, process_file_with.
  rewrite read_csv_single by (unfold CHUNKSIZE; cbn; lia).
  vm_compute. reflexivity.
Qed.

(** ** The detector *)

(** C7 as stated fails: with two state-like headers the detector returns the
    first, not the most recent one. *)
Lemma C7_first_not_most_recent :
  _state_district_columns ["StateA"; "StateB"]
  ≠ (most_recent_match "state" ["StateA"; "StateB"],
     most_recent_match "district" ["StateA"; "StateB"]).
Proof. vm_compute. discriminate. Qed.

Section any_case_folding.
Variable lower : string → string.

Lemma next_match_lower_cols_with sub columns :
  next_match sub (lower_cols_with lower columns) = detect_with lower sub columns.
Proof.
  unfold next_match, lower_cols_with, detect_with, kept_spelling_with, matches_with.
  rewrite find_keys_comprehension.
  destruct (List.find _ columns) as [c|]; cbn; [|done].
  apply get_comprehension.
Qed.

Lemma detector_with_detect columns :
  state_district_columns_with lower columns
  = (detect_with lower "state" columns, detect_with lower "district" columns).
Proof. unfold state_district_columns_with. by rewrite !next_match_lower_cols_with. Qed.

Lemma detect_with_None sub columns :
  detect_with lower sub columns = None
  ↔ ∀ c, c ∈ columns → matches_with lower sub c = false.
Proof.
  unfold detect_with, kept_spelling_with. split.
  - intros Hnone c Hc.
    destruct (List.find _ columns) as [c0|] eqn:Hf; cbn in Hnone.
    + apply find_some in Hf as [Hin _]. apply last_None in Hnone.
      assert (c0 ∈ filter (λ c', lower c' = lower c0) columns) as Hc0.
      { apply list_elem_of_filter. split; [done|]. by apply list_elem_of_In. }
      rewrite Hnone in Hc0. by apply elem_of_nil in Hc0.
    + eapply find_none in Hf; [done|]. by apply list_elem_of_In.
  - intros Hall. destruct (List.find _ columns) as [c0|] eqn:Hf; [|done].
    apply find_some in Hf as [Hin Hm]. apply list_elem_of_In in Hin.
    by rewrite Hall in Hm.
Qed.

Lemma filter_same_key {A B} `{EqDecision B} (g : A → B) (l : list A) (x : A) :
  NoDup (g <$> l) → x ∈ l → filter (λ y, g y = g x) l = [x].
Proof.
  induction l as [|a l IH]; intros Hnd Hin; [by apply elem_of_nil in Hin|].
  cbn [fmap list_fmap] in Hnd. apply NoDup_cons in Hnd as [Ha Hnd].
  apply elem_of_cons in Hin as [->|Hin].
  - rewrite filter_cons_True by done. f_equal.
    apply filter_none. intros y Hy Heq. apply Ha. rewrite <- Heq.
    by apply list_elem_of_fmap_2.
  - rewrite filter_cons_False, IH; [done..|].
    intros Heq. apply Ha. rewrite Heq. by apply list_elem_of_fmap_2.
Qed.

Lemma detect_with_NoDup sub columns :
  NoDup (lower <$> columns) →
  detect_with lower sub columns = List.find (matches_with lower sub) columns.
Proof.
  intros Hnd. unfold detect_with, kept_spelling_with.
  destruct (List.find _ columns) as [c|] eqn:Hf; [|done]. cbn.
  apply find_some in Hf as [Hin _]. apply list_elem_of_In in Hin.
  by rewrite filter_same_key.
Qed.

Lemma detect_with_spelling sub columns c :
  detect_with lower sub columns = Some c →
  last (filter (λ c', lower c' = lower c) columns) = Some c.
Proof.
  unfold detect_with, kept_spelling_with. intros Hd.
  destruct (List.find _ columns) as [c0|]; cbn in Hd; [|done].
  assert (lower c = lower c0) as ->; [|done].
  apply last_Some in Hd as [l' Hl'].
  assert (c ∈ filter (λ c', lower c' = lower c0) columns) as Hin.
  { rewrite Hl'. apply elem_of_app. right. left. }
  by apply list_elem_of_filter in Hin as [? _].
Qed.

(** For header names on which [lower] is the ASCII folding, the detector
    used by the rest of the script's model is this one. *)
Lemma detector_with_agrees columns :
  (∀ c, c ∈ columns → lower c = Str.lower c) →
  state_district_columns_with lower columns = _state_district_columns columns.
Proof.
  intros Hagree. unfold state_district_columns_with, _state_district_columns.
  enough (lower_cols_with lower columns = lower_cols columns) as -> by done.
  unfold lower_cols_with, lower_cols.
  induction columns as [|c l IH] using rev_ind; [done|].
  rewrite !comprehension_snoc, IH, Hagree; [done| |].
  - apply elem_of_app. right. left.
  - intros c' Hc'. apply Hagree, elem_of_app. by left.
Qed.

End any_case_folding.

(** C7, amended. Whatever the case folding [lower] that stands for
    [str.lower], for every header list the state column is the first header,
    in header order, whose lowercased name contains "state", in the spelling
    of the last header with the same lowercased name; likewise the district
    column with "district". The roles are found independently: a role is
    absent exactly when no header matches it, and a lone header matching both
    is returned for both. *)
Theorem C7_first_match_per_role (lower : string → string) columns :
  state_district_columns_with lower columns
  = (List.find (λ c, Str.contains "state" (lower c)) columns
       ≫= (λ c, last (filter (λ c', lower c' = lower c) columns)),
     List.find (λ c, Str.contains "district" (lower c)) columns
       ≫= (λ c, last (filter (λ c', lower c' = lower c) columns)))
  ∧ ((state_district_columns_with lower columns).1 = None
     ↔ ∀ c, c ∈ columns → Str.contains "state" (lower c) = false)
  ∧ ((state_district_columns_with lower columns).2 = None
     ↔ ∀ c, c ∈ columns → Str.contains "district" (lower c) = false)
  ∧ (∀ c, Str.contains "state" (lower c) = true →
          Str.contains "district" (lower c) = true →
          state_district_columns_with lower [c] = (Some c, Some c)).
Proof.
  rewrite detector_with_detect. cbn [fst snd].
  split; [done|]. split; [apply detect_with_None|]. split; [apply detect_with_None|].
  intros c Hs Hd. rewrite detector_with_detect.
  unfold detect_with, kept_spelling_with, matches_with.
  cbn [List.find]. rewrite Hs, Hd. cbn [mbind option_bind].
  by rewrite filter_cons_True.
Qed.

Lemma C7_first_match_per_role_witness :
  state_district_columns_with lower_latin1 ["State_District"]
  = (Some "State_District", Some "State_District").
Proof.
  refine (proj2 (proj2 (proj2 (C7_first_match_per_role lower_latin1 ["State_District"])))
            _ _ _); reflexivity.
Defined.

(** C9. Whatever the case folding [lower] that stands for [str.lower]: when
    no two headers share their lowercased form the detector returns, for each
    role, the first header in input order whose lowercased name contains the
    role's word. In general the lookup structure holds, under a lowercased
    form, the last header with that form, so a returned name is the last
    among the headers that share its lowercased form. *)
Theorem C9_first_header_later_spelling (lower : string → string) columns :
  (NoDup (lower <$> columns) →
     state_district_columns_with lower columns
     = (List.find (λ c, Str.contains "state" (lower c)) columns,
        List.find (λ c, Str.contains "district" (lower c)) columns))
  ∧ (∀ k, PyDict.get k (lower_cols_with lower columns)
          = last (filter (λ c, lower c = k) columns))
  ∧ (∀ c, (state_district_columns_with lower columns).1 = Some c
          ∨ (state_district_columns_with lower columns).2 = Some c →
          last (filter (λ c', lower c' = lower c) columns) = Some c).
Proof.
  split; [|split].
  - intros Hnd. rewrite detector_with_detect, !detect_with_NoDup by done. done.
  - intros k. apply get_comprehension.
  - intros c. rewrite detector_with_detect. cbn [fst snd].
    intros [Hd|Hd]; by apply detect_with_spelling in Hd.
Qed.

Lemma C9_first_header_later_spelling_witness :
  state_district_columns_with lower_latin1
    ["ID"; "StateCode"; "state_name"; "District_Name"]
  = (Some "StateCode", Some "District_Name").
Proof.
  refine (proj1 (C9_first_header_later_spelling lower_latin1
                   ["ID"; "StateCode"; "state_name"; "District_Name"]) _).
  apply (bool_decide_unpack _). vm_compute. exact I.
Defined.

(** ** The run *)

(** C8. When the data directory does not exist the run raises
    [FileNotFoundError] and the file system is as before: the output root is
    not created, the log is not deleted, no file is written, nothing is
    printed. *)
Theorem C8_missing_data_dir_aborts w :
  data_dir w = None → main w = (Raised FileNotFoundError, w).
Proof. intros H. unfold main. by rewrite H. Qed.

Lemma C8_missing_data_dir_aborts_witness :
  main (World None ∅ ∅ (Some [BlankLine]) [])
  = (Raised FileNotFoundError, World None ∅ ∅ (Some [BlankLine]) []).
Proof. apply C8_missing_data_dir_aborts. reflexivity. Defined.

(** ** Files without data rows *)

(** C10 as stated fails: for a file with a header and no data row the reader
    hands out one empty chunk, and the loop body writes the output file. *)
Lemma C10_header_only_output_exists :
  rows header_only = []
  ∧ cleaned_files fresh !! ["f.csv"] = None
  ∧ cleaned_files (_process_file ["f.csv"] header_only fresh) !! ["f.csv"] ≠ None.
Proof.
  split; [done|]. split; [done|].
  unfold _process_file. rewrite process_file_cleaned by apply CHUNKSIZE_pos.
  by rewrite lookup_insert_eq.
Qed.

(** C10, amended. For a file with a header row and no data row the reader
    hands out one chunk without rows; the call puts the header line, and no
    row, into the output file, leaves the log as it was, and reports that the
    file has no row to remove (after the skip notice when the header has no
    role column). *)
Theorem C10_header_only_file rel cols w :
  read_csv CHUNKSIZE (Frame cols []) = [Frame cols []]
  ∧ cleaned_files (_process_file rel (Frame cols []) w) !! rel
    = Some (cleaned_text w rel ++ [HeaderLine Comma cols])
  ∧ log_file (_process_file rel (Frame cols []) w) = log_file w
  ∧ console (_process_file rel (Frame cols []) w)
    = console w ++ (if no_roles cols then [MsgSkip rel] else []) ++ [MsgClean rel].
Proof.
  assert (read_csv CHUNKSIZE (Frame cols []) = [Frame cols []]) as Hread.
  { apply read_csv_single; first [apply CHUNKSIZE_pos | cbn; lia]. }
  split; [done|].
  unfold _process_file, process_file_with. rewrite Hread, process_chunks_closed.
  cbn [cleaned_files log_file console]. rewrite lookup_insert_eq.
  unfold any_removed, removed_rows, kept_rows. cbn [existsb rows filter list_filter].
  cbn [out_lines run_msgs]. unfold chunk_msgs, removed_rows, kept_rows, to_csv.
  cbn [columns rows filter list_filter map andb app bool_decide negb orb].
  rewrite !app_nil_r. done.
Qed.

(** ** Worked examples *)

Example detect_spec_headers :
  _state_district_columns ["ID"; "StateCode"; "District_Name"; "Value"]
  = (Some "StateCode", Some "District_Name").
Proof. reflexivity. Qed.

Example detect_first_of_two :
  _state_district_columns ["StateA"; "StateB"] = (Some "StateA", None).
Proof. reflexivity. Qed.

Example detect_later_spelling :
  _state_district_columns ["State"; "x"; "STATE"] = (Some "STATE", None).
Proof. reflexivity. Qed.

(** Two headers that differ in the case of a non-ASCII letter share their
    key under a folding of that letter: the later spelling is returned. *)
Example lower_latin1_folds :
  lower_latin1 "StateÄ" = "stateä" ∧ lower_latin1 "Stateä" = "stateä"
  ∧ lower_latin1 "District×ß" = "district×ß".
Proof. repeat split. Qed.

Example detect_non_ascii_later_spelling :
  state_district_columns_with lower_latin1 ["StateÄ"; "Stateä"] = (Some "Stateä", None).
Proof. reflexivity. Qed.

Example read_csv_header_only : read_csv 3 (Frame ["a"; "b"] []) = [Frame ["a"; "b"] []].
Proof. reflexivity. Qed.

Example read_csv_exact :
  read_csv 2 (Frame ["a"] [[Some "1"]; [Some "2"]]) = [Frame ["a"] [[Some "1"]; [Some "2"]]].
Proof. reflexivity. Qed.

Example read_csv_three :
  read_csv 2 (Frame ["a"] [[Some "1"]; [Some "2"]; [Some "3"]])
  = [Frame ["a"] [[Some "1"]; [Some "2"]]; Frame ["a"] [[Some "3"]]].
Proof. reflexivity. Qed.

(** The scenario of the specification: only the third row stays. *)
Example spec_scenario_output :
  cleaned_text (_process_file ["f.csv"] spec_file fresh) ["f.csv"]
  = [HeaderLine Comma ["StateCode"; "District_Name"]; RowLine Comma [Some "5"; Some "Y"]].
Proof. rewrite process_file_written. reflexivity. Qed.

(** Values that merely look like the sentinel are kept: the comparison is
    equality of strings. *)
Example near_misses_are_kept :
  kept_rows (Frame ["State"]
               [[Some " 100000"]; [Some "100000 "]; [Some "100000.0"]; [Some "0100000"];
                [Some "1e5"]; [None]; [Some "100000"]])
  = [[Some " 100000"]; [Some "100000 "]; [Some "100000.0"]; [Some "0100000"];
     [Some "1e5"]; [None]].
Proof. reflexivity. Qed.

Example header_only_output :
  cleaned_files (_process_file ["f.csv"] header_only fresh) !! ["f.csv"]
  = Some [HeaderLine Comma ["State"]].
Proof.
  unfold _process_file. rewrite process_file_cleaned by apply CHUNKSIZE_pos.
  by rewrite lookup_insert_eq.
Qed.

(** * Further properties of the script *)

(** ** One call of [_process_file], as a whole *)

Lemma any_removed_read_csv f :
  any_removed (read_csv CHUNKSIZE f) = negb (bool_decide (removed_rows f = [])).
Proof.
  pose proof (any_removed_false _ _ (read_csv_columns CHUNKSIZE f)) as Hiff.
  rewrite (read_csv_concat CHUNKSIZE CHUNKSIZE_pos) in Hiff. fold (removed_rows f) in Hiff.
  destruct (any_removed _) eqn:Hany.
  - symmetry. apply negb_true_iff, bool_decide_eq_false_2. intros Hnone.
    apply Hiff in Hnone. congruence.
  - symmetry. apply negb_false_iff, bool_decide_eq_true_2. by apply Hiff.
Qed.

Lemma run_log_none rel cs : any_removed cs = false → run_log rel cs = [].
Proof.
  unfold any_removed, run_log. induction cs as [|c cs IH]; [done|].
  cbn [existsb mbind list_bind]. intros [Hc Hcs]%orb_false_iff.
  rewrite IH, app_nil_r by done. unfold chunk_log.
  apply negb_false_iff, bool_decide_eq_true in Hc. by rewrite Hc.
Qed.

Lemma file_logged_none rel f : removed_rows f = [] → file_logged rel f = [].
Proof.
  intros Hnone. pose proof (any_removed_read_csv f) as Hany.
  rewrite bool_decide_eq_true_2 in Hany by done.
  unfold file_logged. by rewrite run_log_none.
Qed.

Lemma process_file_closed rel f w :
  _process_file rel f w
  = World (data_dir w)
          (cleaned_dirs (mkdir_parents (removelast rel) w))
          (<[rel := cleaned_text w rel ++ file_written f]> (cleaned_files w))
          (if bool_decide (removed_rows f = [])
           then log_file w
           else Some (log_text w ++ file_logged rel f))
          (console w ++ file_msgs rel f).
Proof.
  pose proof (process_file_cleaned CHUNKSIZE CHUNKSIZE_pos rel f w) as Hfiles.
  pose proof (any_removed_read_csv f) as Hany.
  unfold _process_file, process_file_with, file_logged, file_msgs in *.
  destruct (read_csv CHUNKSIZE f) as [|c cs] eqn:Hrd.
  { by rewrite read_csv_unfold in Hrd. }
  rewrite process_chunks_closed in *. cbn [cleaned_files] in Hfiles.
  rewrite Hfiles, Hany. unfold file_written.
  by destruct (bool_decide (removed_rows f = [])).
Qed.

(** X1. A column the detector returns is a header of the frame, its
    lowercased name contains the word of its role, it is truthy, and looking
    it up in the frame finds a column: the lookups of lines 48 and 50 cannot
    miss. *)
Theorem detected_column_is_a_header columns c :
  ((_state_district_columns columns).1 = Some c →
     c ∈ columns ∧ Str.contains "state" (Str.lower c) = true
     ∧ truthy (Some c) = true ∧ is_Some (Pd.col_index c columns))
  ∧ ((_state_district_columns columns).2 = Some c →
       c ∈ columns ∧ Str.contains "district" (Str.lower c) = true
       ∧ truthy (Some c) = true ∧ is_Some (Pd.col_index c columns)).
Proof.
  rewrite detector_detect. cbn [fst snd].
  assert (∀ sub, sub ≠ "" → detect sub columns = Some c →
            c ∈ columns ∧ Str.contains sub (Str.lower c) = true
            ∧ truthy (Some c) = true ∧ is_Some (Pd.col_index c columns)) as Hrole.
  { intros sub Hsub Hd. pose proof (detect_truthy sub columns Hsub) as Ht.
    rewrite Hd in Ht. apply detect_Some in Hd as [Hin Hm].
    split; [done|]. split; [done|]. split; [by rewrite Ht|].
    unfold Pd.col_index. apply fmap_is_Some.
    by apply (list_find_elem_of (λ c', c' = c) columns c). }
  split; by apply Hrole.
Qed.

Lemma detected_column_is_a_header_witness :
  "StateCode" ∈ ["ID"; "StateCode"]
  ∧ Str.contains "state" (Str.lower "StateCode") = true
  ∧ truthy (Some "StateCode") = true
  ∧ is_Some (Pd.col_index "StateCode" ["ID"; "StateCode"]).
Proof.
  apply (proj1 (detected_column_is_a_header ["ID"; "StateCode"] "StateCode")).
  reflexivity.
Defined.

(** X2. In a cleaned tree that does not hold the target yet, the output file
    of a call is the header line of the source, once, followed by the rows
    that are not removed, in order, whatever the number of chunks. *)
Theorem fresh_output_is_header_then_kept_rows rel f w :
  cleaned_files w !! rel = None →
  cleaned_files (_process_file rel f w) !! rel
  = Some (HeaderLine Comma (columns f)
          :: map (RowLine Comma) (filter (λ r, ¬ Removed (columns f) r) (rows f))).
Proof.
  intros Hnew. rewrite process_file_closed. cbn [cleaned_files].
  rewrite lookup_insert_eq. unfold cleaned_text. by rewrite Hnew.
Qed.

Lemma fresh_output_is_header_then_kept_rows_witness :
  cleaned_files (_process_file ["f.csv"] spec_file fresh) !! ["f.csv"]
  = Some [HeaderLine Comma ["StateCode"; "District_Name"]; RowLine Comma [Some "5"; Some "Y"]].
Proof. apply fresh_output_is_header_then_kept_rows. reflexivity. Defined.

Lemma run_msgs_no_roles rel cols cs first :
  Forall (λ c, columns c = cols) cs → no_roles cols = true →
  run_msgs rel first cs = match cs with
                          | [] => []
                          | _ :: _ => if first then [MsgSkip rel] else []
                          end.
Proof.
  intros Hcols Hno. revert first.
  induction Hcols as [|c cs Hc _ IH]; intros first; [done|].
  cbn [run_msgs]. rewrite IH. unfold chunk_msgs.
  destruct (no_roles_rows c) as [-> _]; [by rewrite Hc|].
  rewrite Hc, Hno, andb_true_r, app_nil_r.
  destruct cs, first; by rewrite ?app_nil_r.
Qed.

(** X3. A file in whose header no name contains "state" or "district" is
    copied: the call writes the header line and every row, unchanged and in
    order, leaves the log as it was, and prints the skip notice once,
    followed by the closing notice, however many chunks the file has. *)
Theorem file_without_role_columns_is_copied rel f w :
  _state_district_columns (columns f) = (None, None) →
  cleaned_files (_process_file rel f w) !! rel
  = Some (cleaned_text w rel
          ++ HeaderLine Comma (columns f) :: map (RowLine Comma) (rows f))
  ∧ log_file (_process_file rel f w) = log_file w
  ∧ console (_process_file rel f w) = console w ++ [MsgSkip rel; MsgClean rel].
Proof.
  intros Hnone.
  assert (no_roles (columns f) = true) as Hno by (unfold no_roles; by rewrite Hnone).
  destruct (no_roles_rows f Hno) as [Hrem Hkept].
  rewrite process_file_closed. cbn [cleaned_files log_file console].
  rewrite lookup_insert_eq. unfold file_written, file_msgs.
  rewrite Hkept, Hrem, bool_decide_eq_true_2 by done.
  split; [done|]. split; [done|]. f_equal.
  rewrite (run_msgs_no_roles rel (columns f)) by (apply read_csv_columns || done).
  by rewrite read_csv_unfold.
Qed.

Lemma file_without_role_columns_is_copied_witness :
  console (_process_file ["f.csv"] (Frame ["ID"] [[Some "100000"]]) fresh)
  = [MsgSkip ["f.csv"]; MsgClean ["f.csv"]].
Proof.
  refine (proj2 (proj2 (file_without_role_columns_is_copied
                          ["f.csv"] (Frame ["ID"] [[Some "100000"]]) fresh _))).
  reflexivity.
Defined.

Lemma remove_counts_app ms1 ms2 :
  remove_counts (ms1 ++ ms2) = remove_counts ms1 ++ remove_counts ms2.
Proof. unfold remove_counts. apply omap_app. Qed.

Lemma remove_counts_chunk rel first c :
  remove_counts (chunk_msgs rel first c)
  = match removed_rows c with [] => [] | _ :: _ => [length (removed_rows c)] end.
Proof.
  unfold chunk_msgs. rewrite remove_counts_app.
  destruct (first && no_roles (columns c)); by destruct (removed_rows c).
Qed.

Lemma remove_counts_run rel first cs :
  sum_list (remove_counts (run_msgs rel first cs)) = length (concat (removed_rows <$> cs))
  ∧ Forall (λ k, 0 < k) (remove_counts (run_msgs rel first cs)).
Proof.
  revert first. induction cs as [|c cs IH]; intros first; [by split|].
  cbn [run_msgs fmap list_fmap concat].
  rewrite remove_counts_app, remove_counts_chunk, sum_list_with_app, length_app.
  destruct (IH false) as [-> Hpos]. split.
  - destruct (removed_rows c); cbn; lia.
  - apply Forall_app. split; [|done].
    destruct (removed_rows c); [constructor|].
    constructor; [cbn; lia | constructor].
Qed.

(** X4. The notices of a call: the [REMOVE] notices announce positive row
    counts that add up to the number of removed rows of the file, and the
    closing [CLEAN] notice is printed exactly when no row of the file is
    removed. *)
Theorem remove_notices_add_up rel f w :
  ∃ printed,
    console (_process_file rel f w) = console w ++ printed
    ∧ sum_list (remove_counts printed) = length (filter (Removed (columns f)) (rows f))
    ∧ Forall (λ k, 0 < k) (remove_counts printed)
    ∧ (MsgClean rel ∈ printed ↔ filter (Removed (columns f)) (rows f) = []).
Proof.
  exists (file_msgs rel f). rewrite process_file_closed. split; [done|].
  unfold file_msgs. fold (removed_rows f).
  destruct (remove_counts_run rel true (read_csv CHUNKSIZE f)) as [Hsum Hpos].
  rewrite (concat_removed_rows (columns f)) in Hsum by apply read_csv_columns.
  rewrite (read_csv_concat CHUNKSIZE CHUNKSIZE_pos) in Hsum. fold (removed_rows f) in Hsum.
  assert (∀ p first cs, MsgClean p ∉ run_msgs rel first cs) as Hclean.
  { intros p first cs. revert first. induction cs as [|c cs IH]; intros first.
    - apply not_elem_of_nil.
    - cbn [run_msgs]. rewrite elem_of_app. intros [Hin|Hin]; [|by apply IH in Hin].
      unfold chunk_msgs in Hin.
      destruct (first && no_roles (columns c)), (removed_rows c); cbn in Hin;
        repeat (apply elem_of_cons in Hin as [[=]|Hin]); by apply elem_of_nil in Hin. }
  assert (remove_counts [MsgClean rel] = []) as Hnil by done.
  destruct (bool_decide (removed_rows f = [])) eqn:Hdec.
  - apply bool_decide_eq_true in Hdec.
    rewrite remove_counts_app, sum_list_with_app, Hsum, Hnil, app_nil_r.
    split; [cbn; lia|]. split; [done|]. split; [done|].
    intros _. apply elem_of_app. right. left.
  - apply bool_decide_eq_false in Hdec. rewrite app_nil_r.
    split; [done|]. split; [done|]. split; [|done]. intros Hin. by apply Hclean in Hin.
Qed.

Lemma mkdir_parents_dirs d w d' :
  d' ∈ cleaned_dirs (mkdir_parents d w) ↔ d' ∈ cleaned_dirs w ∨ d' `prefix_of` d.
Proof.
  unfold mkdir_parents. cbn [cleaned_dirs].
  rewrite elem_of_union, elem_of_list_to_set, list_elem_of_fmap.
  split; (intros [?|H]; [by left|right]).
  - destruct H as (k & -> & _). apply prefix_take.
  - destruct H as [t ->]. exists (length d'). split.
    + by rewrite take_app_length.
    + apply elem_of_seq. rewrite length_app. lia.
Qed.

(** X5. A call leaves the input tree and every other cleaned file alone, and
    removes no directory; afterwards the directory of the target and all its
    ancestors up to the output root exist, and the target itself exists. *)
Theorem process_file_touches_only_its_target rel f w :
  data_dir (_process_file rel f w) = data_dir w
  ∧ (∀ p, p ≠ rel → cleaned_files (_process_file rel f w) !! p = cleaned_files w !! p)
  ∧ is_Some (cleaned_files (_process_file rel f w) !! rel)
  ∧ cleaned_dirs w ⊆ cleaned_dirs (_process_file rel f w)
  ∧ (∀ d, d `prefix_of` removelast rel → d ∈ cleaned_dirs (_process_file rel f w)).
Proof.
  rewrite process_file_closed. cbn [data_dir cleaned_files cleaned_dirs].
  split; [done|]. split; [|split; [|split]].
  - intros p Hp. by rewrite lookup_insert_ne.
  - rewrite lookup_insert_eq. by eexists.
  - intros d Hd. apply mkdir_parents_dirs. by left.
  - intros d Hd. apply mkdir_parents_dirs. by right.
Qed.

Lemma process_file_touches_only_its_target_witness :
  ["a"] ∈ cleaned_dirs (_process_file ["a"; "b"; "f.csv"] spec_file fresh).
Proof.
  refine (proj2 (proj2 (proj2 (proj2 (process_file_touches_only_its_target
                                        ["a"; "b"; "f.csv"] spec_file fresh)))) ["a"] _).
  by exists ["b"].
Defined.

(** X6. A call never drops or alters what the log already holds: the old log
    text is a prefix of the new one. The log file is absent after the call
    exactly when it was absent before and the file has no removed row, so a
    call without removals does not even create it. *)
Theorem log_only_grows rel f w :
  log_text w `prefix_of` log_text (_process_file rel f w)
  ∧ (log_file (_process_file rel f w) = None
     ↔ log_file w = None ∧ filter (Removed (columns f)) (rows f) = []).
Proof.
  rewrite process_file_closed. unfold log_text at 2. cbn [log_file].
  fold (removed_rows f). destruct (bool_decide (removed_rows f = [])) eqn:Hdec.
  - apply bool_decide_eq_true in Hdec. split; [done|]. by split; [|intros []].
  - apply bool_decide_eq_false in Hdec. cbn [default].
    split; [by eexists|]. split; [done | by intros []].
Qed.

(** X7. Two calls for different targets can be swapped without changing the
    cleaned tree, its files or its directories: the output of a file does not
    depend on the order of the scan. *)
Theorem calls_for_different_files_commute rel1 f1 rel2 f2 w :
  rel1 ≠ rel2 →
  cleaned_files (_process_file rel1 f1 (_process_file rel2 f2 w))
  = cleaned_files (_process_file rel2 f2 (_process_file rel1 f1 w))
  ∧ cleaned_dirs (_process_file rel1 f1 (_process_file rel2 f2 w))
    = cleaned_dirs (_process_file rel2 f2 (_process_file rel1 f1 w)).
Proof.
  intros Hne. rewrite !process_file_closed.
  unfold cleaned_text, mkdir_parents. cbn [cleaned_files cleaned_dirs].
  rewrite !lookup_insert_ne by done. split.
  - by apply insert_insert_ne.
  - rewrite <- !(assoc_L (∪)). f_equal. apply (comm_L (∪)).
Qed.

Lemma calls_for_different_files_commute_witness :
  cleaned_files (_process_file ["a.csv"] spec_file (_process_file ["b.csv"] header_only fresh))
  = cleaned_files (_process_file ["b.csv"] header_only (_process_file ["a.csv"] spec_file fresh)).
Proof.
  refine (proj1 (calls_for_different_files_commute
                   ["a.csv"] spec_file ["b.csv"] header_only fresh _)).
  discriminate.
Defined.

(** ** The run over a tree *)

Lemma foldl_process_entry entries w :
  foldl process_entry w (List.filter is_file entries) = process_all (files_of entries) w.
Proof.
  revert w. induction entries as [|[p [|f]] es IH]; intros w; [done|apply IH|].
  cbn [List.filter is_file snd]. unfold files_of, process_all in *.
  cbn [omap list_omap snd fst foldl]. apply IH.
Qed.

Lemma length_filter_is_file entries :
  length (List.filter is_file entries) = length (files_of entries).
Proof.
  induction entries as [|[p [|f]] es IH]; [done|apply IH|].
  cbn [List.filter is_file snd]. unfold files_of in *. cbn. by f_equal.
Qed.

Lemma elem_of_files_of entries rel f :
  (rel, f) ∈ files_of entries ↔ (rel, File f) ∈ entries.
Proof.
  unfold files_of. rewrite list_elem_of_omap. split.
  - intros ([p [|g]] & Hin & Heq); cbn in Heq; [done|]. by injection Heq as -> ->.
  - intros Hin. by exists (rel, File f).
Qed.

Lemma main_unfold w entries :
  data_dir w = Some entries →
  main w
  = (Returned,
     match files_of entries with
     | [] => print MsgNoCsv (prepare w)
     | _ :: _ =>
         print MsgLog
           (print MsgDone
              (process_all (files_of entries)
                 (print (MsgFound (length (files_of entries))) (prepare w))))
     end).
Proof.
  intros Hdir. unfold main. rewrite Hdir. fold (prepare w).
  pose proof (length_filter_is_file entries) as Hlen.
  pose proof (foldl_process_entry entries) as Hfold.
  destruct (List.filter is_file entries) as [|e es] eqn:Hf;
    destruct (files_of entries) as [|pf pfs] eqn:Hfo; try done.
  by rewrite Hfold, Hlen.
Qed.

Lemma prepare_facts w :
  data_dir (prepare w) = data_dir w
  ∧ cleaned_files (prepare w) = cleaned_files w
  ∧ log_file (prepare w) = None
  ∧ cleaned_dirs (prepare w) = cleaned_dirs w ∪ {[ [] ]}.
Proof.
  unfold prepare.
  assert (cleaned_dirs (mkdir_parents [] w) = cleaned_dirs w ∪ {[ [] ]}) as Hmk.
  { unfold mkdir_parents. cbn. by rewrite (right_id_L ∅ (∪)). }
  destruct (bool_decide ([] ∈ cleaned_dirs w)) eqn:Hroot.
  - apply bool_decide_eq_true in Hroot.
    assert (cleaned_dirs w = cleaned_dirs w ∪ {[ [] ]}) as Hsame.
    { apply set_eq. intros d. rewrite elem_of_union, elem_of_singleton.
      split; [by left | by intros [?| ->]]. }
    destruct (log_file w) eqn:Hlog; cbn; rewrite ?Hlog; by rewrite <- Hsame.
  - destruct (log_file w) eqn:Hlog; cbn; rewrite ?Hlog; by rewrite ?Hmk.
Qed.

Lemma process_all_cons rel f files w :
  process_all ((rel, f) :: files) w = process_all files (_process_file rel f w).
Proof. done. Qed.

Lemma process_all_data_dir files w : data_dir (process_all files w) = data_dir w.
Proof.
  revert w. induction files as [|[rel f] files IH]; intros w; [done|].
  by rewrite process_all_cons, IH, process_file_closed.
Qed.

Lemma process_all_cleaned_text files w p :
  cleaned_text (process_all files w) p
  = cleaned_text w p
    ++ (files ≫= λ pf, if decide (pf.1 = p) then file_written pf.2 else []).
Proof.
  revert w. induction files as [|[rel f] files IH]; intros w.
  - cbn. by rewrite app_nil_r.
  - rewrite process_all_cons, IH. cbn [mbind list_bind fst snd].
    rewrite process_file_closed. unfold cleaned_text at 1. cbn [cleaned_files].
    destruct (decide (rel = p)) as [->|Hne].
    + rewrite lookup_insert_eq. cbn [default]. unfold id. by rewrite <- !app_assoc.
    + rewrite lookup_insert_ne by done. done.
Qed.

Lemma process_all_cleaned_Some files w p :
  is_Some (cleaned_files (process_all files w) !! p)
  ↔ is_Some (cleaned_files w !! p) ∨ p ∈ files.*1.
Proof.
  revert w. induction files as [|[rel f] files IH]; intros w.
  - cbn. rewrite elem_of_nil. tauto.
  - rewrite process_all_cons, IH, process_file_closed. cbn [cleaned_files fmap list_fmap fst].
    rewrite elem_of_cons. destruct (decide (rel = p)) as [->|Hne].
    + rewrite lookup_insert_eq. split; [intros _; right; by left|]. intros _. left. by eexists.
    + rewrite lookup_insert_ne by done. split; [tauto|]. intros [?|[?|?]]; [tauto|congruence|tauto].
Qed.

Lemma process_all_cleaned_dirs files w :
  cleaned_dirs w ⊆ cleaned_dirs (process_all files w).
Proof.
  revert w. induction files as [|[rel f] files IH]; intros w; [done|].
  rewrite process_all_cons. etrans; [|apply IH].
  rewrite process_file_closed. intros d Hd. apply mkdir_parents_dirs. by left.
Qed.

Lemma process_all_log_text files w :
  log_text (process_all files w)
  = log_text w ++ (files ≫= λ pf, file_logged pf.1 pf.2).
Proof.
  revert w. induction files as [|[rel f] files IH]; intros w.
  - cbn. by rewrite app_nil_r.
  - rewrite process_all_cons, IH. cbn [mbind list_bind fst snd].
    rewrite process_file_closed. unfold log_text at 1. cbn [log_file].
    destruct (bool_decide (removed_rows f = [])) eqn:Hdec.
    + apply bool_decide_eq_true in Hdec. by rewrite (file_logged_none rel f Hdec).
    + cbn [default]. unfold id. by rewrite <- !app_assoc.
Qed.

Lemma process_all_log_None files w :
  log_file (process_all files w) = None
  ↔ log_file w = None ∧ Forall (λ pf, removed_rows pf.2 = []) files.
Proof.
  revert w. induction files as [|[rel f] files IH]; intros w.
  - cbn. split; [by intros ? | by intros [? _]].
  - rewrite process_all_cons, IH, Forall_cons, process_file_closed. cbn [log_file snd].
    destruct (bool_decide (removed_rows f = [])) eqn:Hdec.
    + apply bool_decide_eq_true in Hdec. tauto.
    + apply bool_decide_eq_false in Hdec. split; [by intros [? _] | tauto].
Qed.

Lemma file_logged_alone rel f : log_text (_process_file rel f fresh) = file_logged rel f.
Proof. by rewrite process_file_logged. Qed.

(** A run over an existing data directory: the calls of [_process_file], in
    scan order, from a world whose output root exists and whose log is gone,
    followed by the closing notices. *)
Lemma main_shape w entries :
  data_dir w = Some entries →
  ∃ w1 ms,
    data_dir w1 = data_dir w
    ∧ cleaned_files w1 = cleaned_files w
    ∧ log_file w1 = None
    ∧ cleaned_dirs w1 = cleaned_dirs w ∪ {[ [] ]}
    ∧ main w
      = (Returned,
         World (data_dir (process_all (files_of entries) w1))
               (cleaned_dirs (process_all (files_of entries) w1))
               (cleaned_files (process_all (files_of entries) w1))
               (log_file (process_all (files_of entries) w1))
               (console (process_all (files_of entries) w1) ++ ms)).
Proof.
  intros Hdir. rewrite (main_unfold w entries Hdir).
  destruct (prepare_facts w) as (Hd & Hf & Hl & Hdirs).
  destruct (files_of entries) as [|pf pfs].
  - by exists (prepare w), [MsgNoCsv].
  - exists (print (MsgFound (length (pf :: pfs))) (prepare w)), [MsgDone; MsgLog].
    repeat (split; [done|]). unfold print at 1 2. cbn [data_dir cleaned_dirs cleaned_files log_file console].
    by rewrite <- app_assoc.
Qed.

Lemma files_of_dirs entries : Forall (λ e, e.2 = Dir) entries → files_of entries = [].
Proof.
  unfold files_of. induction 1 as [|[p nd] es Hd _ IH]; [done|].
  cbn in Hd. subst nd. apply IH.
Qed.

(** X8. A run over a data directory without CSV files returns normally: the
    output root exists afterwards, the cleaned files are untouched, no log
    file is left (one left by an earlier run is removed), and the last line
    printed is the warning. *)
Theorem run_without_csv_files w entries :
  data_dir w = Some entries → Forall (λ e, e.2 = Dir) entries →
  (main w).1 = Returned
  ∧ data_dir (main w).2 = data_dir w
  ∧ cleaned_files (main w).2 = cleaned_files w
  ∧ cleaned_dirs (main w).2 = cleaned_dirs w ∪ {[ [] ]}
  ∧ log_file (main w).2 = None
  ∧ last (console (main w).2) = Some MsgNoCsv.
Proof.
  intros Hdir Hnone. rewrite (main_unfold w entries Hdir).
  rewrite (files_of_dirs entries Hnone).
  destruct (prepare_facts w) as (Hd & Hf & Hl & Hdirs).
  cbn [fst snd]. unfold print. cbn [data_dir cleaned_dirs cleaned_files log_file console].
  by rewrite last_snoc.
Qed.

Lemma run_without_csv_files_witness :
  log_file (main (World (Some [(["x.csv"], Dir)]) ∅ ∅ (Some [BlankLine]) [])).2 = None.
Proof.
  refine (proj1 (proj2 (proj2 (proj2 (proj2
    (run_without_csv_files (World (Some [(["x.csv"], Dir)]) ∅ ∅ (Some [BlankLine]) [])
       [(["x.csv"], Dir)] _ _)))))).
  - reflexivity.
  - by repeat constructor.
Defined.

(** X9. After a run the log holds, in scan order, what each file of the scan
    logs when processed alone, and nothing of what the log held before the
    run; its data rows are the removed rows of the files, in scan order; and
    no log file exists exactly when no file has a removed row. *)
Theorem log_after_run w entries :
  data_dir w = Some entries →
  log_text (main w).2
  = (files_of entries ≫= λ pf, log_text (_process_file pf.1 pf.2 fresh))
  ∧ data_rows (log_text (main w).2)
    = (files_of entries ≫= λ pf, filter (Removed (columns pf.2)) (rows pf.2))
  ∧ (log_file (main w).2 = None
     ↔ Forall (λ pf, filter (Removed (columns pf.2)) (rows pf.2) = []) (files_of entries)).
Proof.
  intros Hdir. destruct (main_shape w entries Hdir) as (w1 & ms & _ & _ & Hl & _ & ->).
  cbn [snd].
  match goal with
  | |- context [log_text ?w'] =>
      change (log_text w') with (log_text (process_all (files_of entries) w1))
  end.
  cbn [log_file]. rewrite process_all_log_text, process_all_log_None.
  assert (log_text w1 = []) as -> by (unfold log_text; by rewrite Hl).
  cbn [app]. split; [|split].
  - induction (files_of entries) as [|[rel f] files IH]; [done|].
    cbn [mbind list_bind fst snd]. by rewrite IH, file_logged_alone.
  - induction (files_of entries) as [|[rel f] files IH]; [done|].
    cbn [mbind list_bind fst snd]. rewrite data_rows_app, IH. f_equal. apply logged_rows.
  - tauto.
Qed.

Lemma log_after_run_witness :
  log_text (main (World (Some [(["f.csv"], File spec_file)]) ∅ ∅ (Some [BlankLine]) [])).2
  = [FileLine ["f.csv"]; HeaderLine Tab ["StateCode"; "District_Name"];
     RowLine Tab [Some "100000"; Some "X"]; RowLine Tab [Some "12"; Some "100000"];
     BlankLine].
Proof.
  refine (eq_trans (proj1 (log_after_run
            (World (Some [(["f.csv"], File spec_file)]) ∅ ∅ (Some [BlankLine]) [])
            [(["f.csv"], File spec_file)] _)) _).
  - reflexivity.
  - cbn [files_of omap list_omap snd fst mbind list_bind]. rewrite app_nil_r.
    rewrite process_file_logged, read_csv_single by (unfold CHUNKSIZE; cbn; lia).
    reflexivity.
Defined.

Lemma files_of_paths entries p : p ∈ (files_of entries).*1 → p ∈ entries.*1.
Proof.
  intros ([rel f] & -> & Hin)%list_elem_of_fmap. apply elem_of_files_of in Hin.
  apply list_elem_of_fmap. by exists (rel, File f).
Qed.

Lemma files_of_NoDup entries : NoDup entries.*1 → NoDup (files_of entries).*1.
Proof.
  induction entries as [|[p [|f]] es IH]; [done|..];
    cbn [fmap list_fmap fst]; intros [Hp Hes]%NoDup_cons.
  - by apply IH.
  - change (files_of ((p, File f) :: es)) with ((p, f) :: files_of es).
    cbn [fmap list_fmap fst]. apply NoDup_cons. split; [|by apply IH].
    intros Hin. by apply Hp, files_of_paths.
Qed.

Lemma bind_single_path {A} (g : frame → list A) (files : list (path * frame)) rel f :
  NoDup files.*1 → (rel, f) ∈ files →
  (files ≫= λ pf, if decide (pf.1 = rel) then g pf.2 else []) = g f.
Proof.
  induction files as [|[p h] files IH]; intros Hnd Hin; [by apply elem_of_nil in Hin|].
  cbn [fmap list_fmap fst] in Hnd. apply NoDup_cons in Hnd as [Hp Hnd].
  cbn [mbind list_bind fst snd]. apply elem_of_cons in Hin as [[= <- <-]|Hin].
  - rewrite decide_True by done.
    assert ((files ≫= λ pf, if decide (pf.1 = rel) then g pf.2 else []) = []) as ->;
      [|by rewrite app_nil_r].
    clear IH Hnd. induction files as [|[q k] files IH]; [done|].
    cbn [mbind list_bind fst snd]. rewrite decide_False, IH; [done| |].
    + intros Hin. apply Hp. by right.
    + intros ->. apply Hp. by left.
  - rewrite decide_False, IH; [done..|].
    intros ->. apply Hp. apply list_elem_of_fmap. by exists (rel, f).
Qed.

(** X10. In a run over entries with pairwise distinct paths, the output of
    each scanned file ends up holding what the cleaned tree held at that path
    before the run, followed by the header line of the source and its rows
    that are not removed; in a fresh cleaned tree this is the header line and
    the kept rows alone. *)
Theorem output_of_each_file_after_run w entries rel f :
  data_dir w = Some entries → NoDup entries.*1 → (rel, File f) ∈ entries →
  cleaned_files (main w).2 !! rel
  = Some (cleaned_text w rel
          ++ HeaderLine Comma (columns f)
             :: map (RowLine Comma) (filter (λ r, ¬ Removed (columns f) r) (rows f))).
Proof.
  intros Hdir Hnd Hin.
  destruct (main_shape w entries Hdir) as (w1 & ms & _ & Hf & _ & _ & ->).
  cbn [snd cleaned_files].
  pose proof (process_all_cleaned_text (files_of entries) w1 rel) as Htext.
  rewrite (bind_single_path file_written (files_of entries) rel f) in Htext
    by (by apply files_of_NoDup || by apply elem_of_files_of).
  assert (is_Some (cleaned_files (process_all (files_of entries) w1) !! rel)) as [t Ht].
  { apply process_all_cleaned_Some. right. apply list_elem_of_fmap.
    exists (rel, f). split; [done|]. by apply elem_of_files_of. }
  unfold cleaned_text in Htext. rewrite Ht, Hf in Htext. cbn [default] in Htext.
  unfold id in Htext. rewrite Ht. f_equal. exact Htext.
Qed.

Lemma output_of_each_file_after_run_witness :
  cleaned_files
    (main (World (Some [(["d.csv"], Dir); (["f.csv"], File spec_file)]) ∅ ∅ None [])).2
    !! ["f.csv"]
  = Some [HeaderLine Comma ["StateCode"; "District_Name"]; RowLine Comma [Some "5"; Some "Y"]].
Proof.
  refine (eq_trans (output_of_each_file_after_run
           (World (Some [(["d.csv"], Dir); (["f.csv"], File spec_file)]) ∅ ∅ None [])
           [(["d.csv"], Dir); (["f.csv"], File spec_file)] ["f.csv"] spec_file _ _ _) _).
  - reflexivity.
  - apply (bool_decide_unpack _). vm_compute. exact I.
  - right. left.
  - vm_compute. reflexivity.
Defined.

(** X11. A run that stops on the missing data directory or goes through all
    its files leaves the input tree as it was, removes no directory and no
    file of the cleaned tree, and never shortens or alters what a cleaned
    file held: the old text stays as a prefix of the new one. *)
Theorem run_only_extends_the_cleaned_tree w :
  data_dir (main w).2 = data_dir w
  ∧ cleaned_dirs w ⊆ cleaned_dirs (main w).2
  ∧ (∀ p, is_Some (cleaned_files w !! p) → is_Some (cleaned_files (main w).2 !! p))
  ∧ (∀ p, cleaned_text w p `prefix_of` cleaned_text (main w).2 p).
Proof.
  destruct (data_dir w) as [entries|] eqn:Hdir.
  - destruct (main_shape w entries Hdir) as (w1 & ms & Hd & Hf & _ & Hdirs & ->).
    cbn [fst snd data_dir cleaned_dirs cleaned_files].
    rewrite process_all_data_dir.
    split; [congruence|]. split; [|split].
    + etrans; [|apply process_all_cleaned_dirs]. rewrite Hdirs.
      intros d Hd'. apply elem_of_union. by left.
    + intros p Hp. apply process_all_cleaned_Some. left. by rewrite Hf.
    + intros p.
      match goal with
      | |- context [cleaned_text ?w' p] =>
          change (cleaned_text w' p)
            with (cleaned_text (process_all (files_of entries) w1) p)
      end.
      rewrite process_all_cleaned_text. unfold cleaned_text at 2. rewrite Hf.
      by eexists.
  - unfold main. rewrite Hdir. cbn [fst snd].
    split; [by rewrite Hdir|].
    split; [done|]. split; [done|]. by intros p.
Qed.

(** X12. After a run over an existing data directory, the cleaned tree holds
    a file at a path exactly when it held one before or the scan found a file
    (not a directory) at that path. *)
Theorem outputs_exist_for_scanned_files w entries p :
  data_dir w = Some entries →
  (is_Some (cleaned_files (main w).2 !! p)
   ↔ is_Some (cleaned_files w !! p) ∨ ∃ f, (p, File f) ∈ entries).
Proof.
  intros Hdir. destruct (main_shape w entries Hdir) as (w1 & ms & _ & Hf & _ & _ & ->).
  cbn [snd cleaned_files]. rewrite process_all_cleaned_Some, Hf.
  assert (p ∈ (files_of entries).*1 ↔ ∃ f, (p, File f) ∈ entries) as ->; [|done].
  rewrite list_elem_of_fmap. split.
  - intros ([rel f] & -> & Hin). exists f. by apply elem_of_files_of.
  - intros [f Hin]. exists (p, f). split; [done|]. by apply elem_of_files_of.
Qed.

Lemma outputs_exist_for_scanned_files_witness :
  ¬ is_Some (cleaned_files
               (main (World (Some [(["d.csv"], Dir)]) ∅ ∅ None [])).2 !! ["d.csv"]).
Proof.
  intros H.
  apply (outputs_exist_for_scanned_files
           (World (Some [(["d.csv"], Dir)]) ∅ ∅ None []) [(["d.csv"], Dir)] ["d.csv"]
           eq_refl) in H.
  destruct H as [[t Ht]|[f Hin]]; [done|].
  apply list_elem_of_singleton in Hin. discriminate.
Defined.

Lemma process_all_same files w1 w2 :
  cleaned_files w1 = cleaned_files w2 → log_file w1 = log_file w2 →
  cleaned_files (process_all files w1) = cleaned_files (process_all files w2)
  ∧ log_file (process_all files w1) = log_file (process_all files w2).
Proof.
  revert w1 w2. induction files as [|[rel f] files IH]; intros w1 w2 Hf Hl; [done|].
  rewrite !process_all_cons. apply IH; rewrite !process_file_closed.
  - cbn [cleaned_files]. unfold cleaned_text. by rewrite Hf.
  - cbn [log_file]. unfold log_text. by rewrite Hl.
Qed.

(** X13. What a run over an existing data directory leaves in the cleaned
    files and in the log depends on the input tree and on the cleaned files
    found at the start only: neither the log of an earlier run nor anything
    printed so far has an influence. *)
Theorem run_ignores_old_log w1 w2 entries :
  data_dir w1 = Some entries → data_dir w2 = Some entries →
  cleaned_files w1 = cleaned_files w2 →
  cleaned_files (main w1).2 = cleaned_files (main w2).2
  ∧ log_file (main w1).2 = log_file (main w2).2.
Proof.
  intros Hd1 Hd2 Hfiles.
  destruct (main_shape w1 entries Hd1) as (v1 & ms1 & _ & Hf1 & Hl1 & _ & ->).
  destruct (main_shape w2 entries Hd2) as (v2 & ms2 & _ & Hf2 & Hl2 & _ & ->).
  cbn [snd cleaned_files log_file].
  apply process_all_same; congruence.
Qed.

Lemma run_ignores_old_log_witness :
  log_file (main (World (Some [(["f.csv"], File spec_file)]) ∅ ∅ (Some [BlankLine]) [])).2
  = log_file (main (World (Some [(["f.csv"], File spec_file)]) ∅ ∅ None [MsgDone])).2.
Proof.
  refine (proj2 (run_ignores_old_log
            (World (Some [(["f.csv"], File spec_file)]) ∅ ∅ (Some [BlankLine]) [])
            (World (Some [(["f.csv"], File spec_file)]) ∅ ∅ None [MsgDone])
            [(["f.csv"], File spec_file)] _ _ _)); reflexivity.
Defined.
